(** * Accessible Image Captioner: a shallow embedding and its properties

  The development follows the two Python modules of the application:

  - [utils/captioner.py], class [ImageCaptioner]
    ([generate_caption], [batch_generate_captions]);
  - [main.py], class [AccessibleImageCaptionerApp]
    (the handlers behind the buttons, the keyboard shortcuts and the
    completion callbacks posted by the worker threads).

  Python values are modelled as the code uses them: a [str] is a sequence
  of Unicode code points, [None] is [option]'s [None], an exception is a
  value carried by [Raise], and a [try ... except Exception] block is the
  combinator [try_except].  The libraries the program calls (PIL, the BLIP
  processor and model, Tk's image support, pathlib, the file system, the
  speech engine, the console) are the fields of the records [Library],
  [Hub] and [Platform]: the program is verified for every behaviour they
  may have. *)

From Stdlib Require Import List String Ascii NArith ZArith Bool Lia.
From Stdlib Require Import Strings.Byte.
From Stdlib Require DecimalString HexadecimalString.
Import ListNotations.

(* ===================================================================== *)
(** ** Python values *)
(* ===================================================================== *)

Module Py.

(** A Python [str]: its code points, in order. *)
Definition str := list N.

(** A literal of the source text made of ASCII characters only. *)
Definition lit (s : string) : str :=
  List.map N_of_ascii (list_ascii_of_string s).

Definition str_eqb (a b : str) : bool :=
  if list_eq_dec N.eq_dec a b then true else false.

(** [bool(s)] for a string: the empty string is false. *)
Definition truthy (s : str) : bool :=
  match s with
  | [] => false
  | _ :: _ => true
  end.

(** [bool(x)] for an [Optional[str]]: [None] and [""] are false. *)
Definition truthy_opt (x : option str) : bool :=
  match x with
  | None => false
  | Some s => truthy s
  end.

(** [bool(x)] for an object reference that is either [None] or an
    instance without [__bool__]/[__len__] (a captioner, a TTS engine). *)
Definition truthy_obj {A : Type} (x : option A) : bool :=
  match x with
  | None => false
  | Some _ => true
  end.

(** [c.isspace()] as [str.strip()] uses it: the code points CPython lists
    as whitespace. *)
Definition isspace (c : N) : bool :=
  ((9 <=? c) && (c <=? 13) ||
   (28 <=? c) && (c <=? 32) ||
   (c =? 133) || (c =? 160) || (c =? 5760) ||
   (8192 <=? c) && (c <=? 8202) ||
   (c =? 8232) || (c =? 8233) || (c =? 8239) || (c =? 8287) ||
   (c =? 12288))%N.

Fixpoint lstrip (s : str) : str :=
  match s with
  | [] => []
  | c :: s' => if isspace c then lstrip s' else s
  end.

Definition rstrip (s : str) : str := rev (lstrip (rev s)).

(** [s.strip()] *)
Definition strip (s : str) : str := rstrip (lstrip s).

(** An exception instance, of a subclass of [Exception] (what PIL, torch,
    transformers, Tk and the file system raise); [exn_str] is what
    [str(e)] gives.  [KeyboardInterrupt] and [SystemExit], which
    [except Exception] lets through, are not modelled. *)
Record exn : Type := mkExn { exn_class : str; exn_str : str }.

(** The outcome of evaluating an expression or running a block. *)
Inductive result (A : Type) : Type :=
| Ok (a : A)
| Raise (e : exn).

Arguments Ok {A} a.
Arguments Raise {A} e.

Definition is_raise {A : Type} (r : result A) : bool :=
  match r with
  | Ok _ => false
  | Raise _ => true
  end.

(** Code that reads and updates a state [S] and may raise. *)
Definition M (S A : Type) : Type := S -> result A * S.

Definition ret {S A : Type} (a : A) : M S A := fun s => (Ok a, s).

Definition bind {S A B : Type} (c : M S A) (k : A -> M S B) : M S B :=
  fun s =>
    match c s with
    | (Ok a, s') => k a s'
    | (Raise e, s') => (Raise e, s')
    end.

Definition raise {S A : Type} (e : exn) : M S A := fun s => (Raise e, s).

Definition get {S : Type} : M S S := fun s => (Ok s, s).

Definition modify {S : Type} (f : S -> S) : M S unit := fun s => (Ok tt, f s).

(** The value of an expression that may raise, inside a block. *)
Definition lift {S A : Type} (r : result A) : M S A := fun s => (r, s).

(** [try: body  except Exception as e: handler e].  What the body did to
    the state before it raised stays done. *)
Definition try_except {S A : Type} (body : M S A) (handler : exn -> M S A)
  : M S A :=
  fun s =>
    match body s with
    | (Ok a, s') => (Ok a, s')
    | (Raise e, s') => handler e s'
    end.

(** [s.strip(chars)]: the characters of [chars] removed from both ends. *)
Definition in_chars (chars : str) (c : N) : bool :=
  existsb (N.eqb c) chars.

Fixpoint lstrip_chars (chars s : str) : str :=
  match s with
  | [] => []
  | c :: s' => if in_chars chars c then lstrip_chars chars s' else s
  end.

Definition strip_chars (chars s : str) : str :=
  rev (lstrip_chars chars (rev (lstrip_chars chars s))).

(** *** Text files

    [open(path, 'w', encoding='utf-8')] leaves [newline] at its default:
    on writing, every ['\n'] of the text becomes [os.linesep], and the
    result is encoded as UTF-8.  A lone surrogate has no UTF-8 encoding
    ([UnicodeEncodeError]). *)

Definition LF : N := 10.
Definition CR : N := 13.
Definition nl : str := [LF].

Definition translate_newlines (linesep s : str) : str :=
  flat_map (fun c => if (c =? LF)%N then linesep else [c]) s.

Definition byte_of (n : N) : byte :=
  match Byte.of_N n with
  | Some b => b
  | None => x00
  end.

(** The continuation byte carrying bits [6k+5 .. 6k] of a code point. *)
Definition cont (c : N) (k : N) : byte :=
  byte_of (N.lor 128 (N.land (N.shiftr c (6 * k)) 63)).

Definition utf8_char (c : N) : option (list byte) :=
  if (c <? 128)%N then Some [byte_of c]
  else if (c <? 2048)%N then
    Some [byte_of (N.lor 192 (N.shiftr c 6)); cont c 0]
  else if (c <? 65536)%N then
    if ((55296 <=? c) && (c <=? 57343))%N then None
    else Some [byte_of (N.lor 224 (N.shiftr c 12)); cont c 1; cont c 0]
  else if (c <? 1114112)%N then
    Some [byte_of (N.lor 240 (N.shiftr c 18)); cont c 2; cont c 1; cont c 0]
  else None.

(** [str(n)] for a position, and [format(c, 'x')] for a code point. *)
Definition decimal (n : nat) : str :=
  lit (DecimalString.NilEmpty.string_of_uint (Nat.to_uint n)).

Definition hex (c : N) : str :=
  lit (HexadecimalString.NilEmpty.string_of_uint (N.to_hex_uint c)).

Definition zero_padded (width : nat) (digits : str) : str :=
  repeat 48%N (width - List.length digits) ++ digits.

(** How the message of a [UnicodeEncodeError] shows the character it
    stopped at: two, four or eight hexadecimal digits. *)
Definition escaped (c : N) : str :=
  if (c <=? 255)%N then lit "\x" ++ zero_padded 2 (hex c)
  else if (c <=? 65535)%N then lit "\u" ++ zero_padded 4 (hex c)
  else lit "\U" ++ zero_padded 8 (hex c).

(** [UnicodeEncodeError(encoding, object, start, start + run, reason)],
    where [c] is [object[start]]; [exn_str] is what CPython's [str(e)]
    gives: the character when the run is one long, the positions
    otherwise. *)
Definition UnicodeEncodeError
    (encoding : str) (c : N) (start run : nat) (reason : str) : exn :=
  mkExn (lit "UnicodeEncodeError")
        (lit "'" ++ encoding ++ lit "' codec can't encode " ++
         (match run with
          | 1 => lit "character '" ++ escaped c ++ lit "' in position " ++
                 decimal start
          | _ => lit "characters in position " ++ decimal start ++ lit "-" ++
                 decimal (start + run - 1)
          end) ++ lit ": " ++ reason).

(** The characters at the head of [s] that the codec cannot encode. *)
Fixpoint unencodable_run (codec : N -> option (list byte)) (s : str) : nat :=
  match s with
  | [] => 0
  | c :: s' =>
      match codec c with
      | None => S (unencodable_run codec s')
      | Some _ => 0
      end
  end.

(** [s.encode(encoding)] with [errors='strict'], for the part of the text
    that starts at position [pos]: the error names the first run of
    characters that cannot be encoded. *)
Fixpoint encode_from (encoding reason : str) (codec : N -> option (list byte))
    (pos : nat) (s : str) : result (list byte) :=
  match s with
  | [] => Ok []
  | c :: s' =>
      match codec c with
      | None =>
          Raise (UnicodeEncodeError encoding c pos
                   (S (unencodable_run codec s')) reason)
      | Some bs =>
          match encode_from encoding reason codec (S pos) s' with
          | Ok rest => Ok (bs ++ rest)
          | Raise e => Raise e
          end
      end
  end.

Definition utf8_encode (s : str) : result (list byte) :=
  encode_from (lit "utf-8") (lit "surrogates not allowed") utf8_char 0 s.

Definition ascii_char (c : N) : option (list byte) :=
  if (c <? 128)%N then Some [byte_of c] else None.

Definition ascii_encode (s : str) : result (list byte) :=
  encode_from (lit "ascii") (lit "ordinal not in range(128)") ascii_char 0 s.

(** The bytes a text-mode UTF-8 file receives for [s]. *)
Definition text_file_bytes (linesep s : str) : result (list byte) :=
  utf8_encode (translate_newlines linesep s).

End Py.

Import Py.

Declare Scope py_scope.
Delimit Scope py_scope with py.
Notation "x <- c ;; k" := (bind c (fun x => k))
(at level 61, c at next level, right associativity) : py_scope.
Notation "c ;;; k" := (bind c (fun _ => k))
(at level 61, right associativity) : py_scope.
Open Scope py_scope.


(* ===================================================================== *)
(** ** utils/captioner.py *)
(* ===================================================================== *)

Module ImageCaptioner.

(** The libraries behind the captioner: PIL for the image, the BLIP
    processor and model for the caption, and the console [print] writes
    to.  Each call either returns or raises. *)
Record Library : Type := {
  image : Type;
  tensors : Type;
  token_ids : Type;
  (** [Image.open(path)] *)
  Image_open : str -> result image;
  (** What [Image.open(None)] raises. *)
  Image_open_None : exn;
  (** [image.mode] *)
  mode : image -> str;
  (** [image.convert(mode)] *)
  convert : image -> str -> result image;
  (** [self.processor(image, return_tensors="pt").to(self.device)] *)
  processor : image -> result tensors;
  (** [self.model.generate(inputs, max_length=.., num_beams=..)] *)
  model_generate : tensors -> Z -> Z -> result (list token_ids);
  (** What [output_ids[0]] raises when the model returned no row. *)
  empty_output_error : exn;
  (** [self.processor.decode(ids, skip_special_tokens=True)] *)
  processor_decode : token_ids -> result str;
  (** [print(line)]: the line is written to [sys.stdout], which raises when
      the stream cannot encode the line or cannot be written to. *)
  stdout_write : str -> result unit
}.

(** What the captioner asked of the world around it, in order. *)
Inductive call (L : Library) : Type :=
| CallOpen (path : str)
| CallConvert (img : image L) (to_mode : str)
| CallProcessor (img : image L)
| CallGenerate (inputs : tensors L) (max_length num_beams : Z)
| CallDecode (ids : token_ids L)
| CallPrint (line : str).

Arguments CallOpen {L} path.
Arguments CallConvert {L} img to_mode.
Arguments CallProcessor {L} img.
Arguments CallGenerate {L} inputs max_length num_beams.
Arguments CallDecode {L} ids.
Arguments CallPrint {L} line.

Definition trace (L : Library) : Type := list (call L).

Section Captioner.

Variable L : Library.

(** A library call: it is recorded, then its outcome is the block's. *)
Definition invoke {A : Type} (c : call L) (r : result A) : M (trace L) A :=
  modify (fun t => t ++ [c]) ;;; lift r.

(** [print(line)] *)
Definition print (line : str) : M (trace L) unit :=
  invoke (CallPrint line) (stdout_write L line).

(** [output_ids[0]] *)
Definition first_row (output_ids : list (token_ids L)) : result (token_ids L) :=
  match output_ids with
  | ids :: _ => Ok ids
  | [] => Raise (empty_output_error L)
  end.

Definition RGB : str := lit "RGB".

(** The [try] block of [generate_caption]. *)
Definition generate_caption_body
    (image_path : str) (max_length num_beams : Z) : M (trace L) (option str) :=
  img <- invoke (CallOpen image_path) (Image_open L image_path) ;;
  img <- (if negb (str_eqb (mode L img) RGB)
          then invoke (CallConvert img RGB) (convert L img RGB)
          else ret img) ;;
  inputs <- invoke (CallProcessor img) (processor L img) ;;
  output_ids <- invoke (CallGenerate inputs max_length num_beams)
                       (model_generate L inputs max_length num_beams) ;;
  ids <- lift (first_row output_ids) ;;
  caption <- invoke (CallDecode ids) (processor_decode L ids) ;;
  ret (Some (strip caption)).

(** The [except] branch of [generate_caption]: nothing protects its
    [print]. *)
Definition generate_caption_handler (e : exn) : M (trace L) (option str) :=
  print (lit "Error generating caption: " ++ exn_str e) ;;;
  ret None.

Definition generate_caption
    (image_path : str) (max_length num_beams : Z) : M (trace L) (option str) :=
  try_except
    (generate_caption_body image_path max_length num_beams)
    generate_caption_handler.

Definition sentinel : str := lit "Unable to generate caption".

(** [caption if caption else "Unable to generate caption"] *)
Definition caption_or_sentinel (caption : option str) : str :=
  match caption with
  | Some c => if truthy c then c else sentinel
  | None => sentinel
  end.

(** The [for] loop of [batch_generate_captions]; [captions] is the list
    built so far. *)
Fixpoint batch_loop (image_paths : list str) (max_length num_beams : Z)
    (captions : list str) : M (trace L) (list str) :=
  match image_paths with
  | [] => ret captions
  | img_path :: rest =>
      caption <- generate_caption img_path max_length num_beams ;;
      batch_loop rest max_length num_beams
                 (captions ++ [caption_or_sentinel caption])
  end.

Definition batch_generate_captions
    (image_paths : list str) (max_length num_beams : Z) : M (trace L) (list str) :=
  batch_loop image_paths max_length num_beams [].

End Captioner.

(** *** Vocabulary for the captioner's outcomes *)

Section Outcomes.

Variable L : Library.

(** How a call of [generate_caption] ends: with the value it returns, or
    with the exception it lets out. *)
Definition outcome_of (image_path : str) (max_length num_beams : Z)
  : result (option str) :=
  fst (generate_caption L image_path max_length num_beams []).

(** The caption a call of [generate_caption] gives; [None] when it gives
    none, be it that it returns [None] or that it raises. *)
Definition caption_of (image_path : str) (max_length num_beams : Z)
  : option str :=
  match fst (generate_caption L image_path max_length num_beams []) with
  | Ok caption => caption
  | Raise _ => None
  end.

(** [feeds path img]: [img] is what the file at [path] gives once opened
    and, when its mode is not RGB, converted. *)
Inductive feeds (path : str) : image L -> Prop :=
| feeds_rgb img :
    Image_open L path = Ok img ->
    mode L img = RGB ->
    feeds path img
| feeds_converted img img' :
    Image_open L path = Ok img ->
    mode L img <> RGB ->
    convert L img RGB = Ok img' ->
    feeds path img'.

(** [fails path max_length num_beams e]: one of the steps of the [try]
    block raises [e]. *)
Inductive fails (path : str) (max_length num_beams : Z) : exn -> Prop :=
| open_fails e :
    Image_open L path = Raise e ->
    fails path max_length num_beams e
| convert_fails img e :
    Image_open L path = Ok img ->
    mode L img <> RGB ->
    convert L img RGB = Raise e ->
    fails path max_length num_beams e
| processor_fails img e :
    feeds path img ->
    processor L img = Raise e ->
    fails path max_length num_beams e
| model_fails img inputs e :
    feeds path img ->
    processor L img = Ok inputs ->
    model_generate L inputs max_length num_beams = Raise e ->
    fails path max_length num_beams e
| no_row img inputs :
    feeds path img ->
    processor L img = Ok inputs ->
    model_generate L inputs max_length num_beams = Ok [] ->
    fails path max_length num_beams (empty_output_error L)
| decode_fails img inputs ids rest e :
    feeds path img ->
    processor L img = Ok inputs ->
    model_generate L inputs max_length num_beams = Ok (ids :: rest) ->
    processor_decode L ids = Raise e ->
    fails path max_length num_beams e.

(** [decodes path max_length num_beams text]: every step succeeds and the
    decoded text is [text]. *)
Inductive decodes (path : str) (max_length num_beams : Z) : str -> Prop :=
| decodes_intro img inputs ids rest text :
    feeds path img ->
    processor L img = Ok inputs ->
    model_generate L inputs max_length num_beams = Ok (ids :: rest) ->
    processor_decode L ids = Ok text ->
    decodes path max_length num_beams text.

(** The line the [except] branch prints for [e]. *)
Definition error_text (e : exn) : str :=
  lit "Error generating caption: " ++ exn_str e.

(** Whatever step of the run fails, the console takes the line that
    reports it. *)
Definition reportable (path : str) (max_length num_beams : Z) : Prop :=
  forall e, fails path max_length num_beams e ->
            stdout_write L (error_text e) = Ok tt.

End Outcomes.

End ImageCaptioner.

(** *** The calls of one run, by kind *)

Module CaptionerCalls.

Import ImageCaptioner.

Section Kinds.

Variable L : Library.

Definition is_open (c : call L) : bool :=
  match c with CallOpen _ => true | _ => false end.

Definition is_convert (c : call L) : bool :=
  match c with CallConvert _ _ => true | _ => false end.

Definition is_processor (c : call L) : bool :=
  match c with CallProcessor _ => true | _ => false end.

Definition is_generate (c : call L) : bool :=
  match c with CallGenerate _ _ _ => true | _ => false end.

Definition is_decode (c : call L) : bool :=
  match c with CallDecode _ => true | _ => false end.

Definition is_print (c : call L) : bool :=
  match c with CallPrint _ => true | _ => false end.

(** How often a kind of call occurs. *)
Definition occurrences (kind : call L -> bool) (t : trace L) : nat :=
  List.length (filter kind t).

(** What one call of [generate_caption] adds to the record. *)
Definition calls_of (image_path : str) (max_length num_beams : Z) : trace L :=
  snd (generate_caption L image_path max_length num_beams []).

(** The line the [except] branch prints for [e]. *)
Definition error_line (e : exn) : call L :=
  CallPrint (lit "Error generating caption: " ++ exn_str e).

End Kinds.

End CaptionerCalls.

(** *** [ImageCaptioner.__init__] and [_load_model] *)

Module Loading.

(** The Hugging Face hub, torch and the console, as the constructor uses
    them. *)
Record Hub : Type := {
  blip_processor : Type;
  blip_model : Type;
  (** [torch.cuda.is_available()] *)
  cuda_is_available : bool;
  (** [BlipProcessor.from_pretrained(name, local_files_only=False)] *)
  BlipProcessor_from_pretrained : str -> result blip_processor;
  (** [BlipForConditionalGeneration.from_pretrained(name,
      local_files_only=False, use_safetensors=True)] *)
  BlipForConditionalGeneration_from_pretrained : str -> result blip_model;
  (** [model.to(device)] *)
  model_to : blip_model -> str -> result unit;
  (** [model.eval()] *)
  model_eval : blip_model -> result unit;
  (** [traceback.format_exc()] while [e] is being handled *)
  format_exc : exn -> str;
  (** [print(line)]: the line is written to [sys.stdout], which raises when
      the stream cannot encode the line or cannot be written to. *)
  console_write : str -> result unit
}.

(** What the constructor asks of the hub and of torch, in order. *)
Inductive request : Type :=
| LoadProcessor (model_name : str)
| LoadModel (model_name : str)
| MoveTo (device : str)
| SetEval.

Section Constructor.

Variable H : Hub.

(** The attributes of an [ImageCaptioner]. *)
Record captioner : Type := mkCaptioner {
  model_name : str;
  device : str;
  model : option (blip_model H);
  processor : option (blip_processor H)
}.

(** The object under construction, the lines handed to [print] and the
    requests made. *)
Record loading : Type := mkLoading {
  this : captioner;
  stdout : list str;
  requests : list request
}.

(** [print(line)]: the line is recorded, then the outcome of writing it is
    the block's. *)
Definition print (line : str) : M loading unit :=
  modify (fun s => mkLoading (this s) (stdout s ++ [line]) (requests s)) ;;;
  lift (console_write H line).

Definition ask {A : Type} (r : request) (outcome : result A) : M loading A :=
  modify (fun s => mkLoading (this s) (stdout s) (requests s ++ [r])) ;;;
  lift outcome.

Definition set_processor (p : blip_processor H) : M loading unit :=
  modify (fun s =>
            mkLoading (mkCaptioner (model_name (this s)) (device (this s))
                                   (model (this s)) (Some p))
                      (stdout s) (requests s)).

Definition set_model (m : blip_model H) : M loading unit :=
  modify (fun s =>
            mkLoading (mkCaptioner (model_name (this s)) (device (this s))
                                   (Some m) (processor (this s)))
                      (stdout s) (requests s)).

Definition check_mark : str := [10003]%N.

(** ["=" * 60] *)
Definition rule : str := repeat 61%N 60.

Definition RuntimeError (message : str) : exn :=
  mkExn (lit "RuntimeError") message.

(** The [try] block of [_load_model]. *)
Definition _load_model_body : M loading unit :=
  s <- get ;;
  print (lit "Loading model: " ++ model_name (this s)) ;;;
  print (lit "Using device: " ++ device (this s)) ;;;
  print (lit "Loading processor...") ;;;
  p <- ask (LoadProcessor (model_name (this s)))
           (BlipProcessor_from_pretrained H (model_name (this s))) ;;
  set_processor p ;;;
  print (check_mark ++ lit " Processor loaded") ;;;
  print (lit "Loading model into memory...") ;;;
  m <- ask (LoadModel (model_name (this s)))
           (BlipForConditionalGeneration_from_pretrained H (model_name (this s))) ;;
  set_model m ;;;
  print (check_mark ++ lit " Model loaded into memory") ;;;
  print (lit "Moving model to " ++ device (this s) ++ lit "...") ;;;
  ask (MoveTo (device (this s))) (model_to H m (device (this s))) ;;;
  ask SetEval (model_eval H m) ;;;
  print rule ;;;
  print (check_mark ++ lit " MODEL READY!") ;;;
  print rule.

Definition _load_model : M loading unit :=
  try_except
    _load_model_body
    (fun e =>
       let error_details := format_exc H e in
       print (lit "ERROR DETAILS:" ++ nl ++ error_details) ;;;
       raise (RuntimeError
                (lit "Failed to load model: " ++ exn_str e ++ nl ++ nl ++
                 lit "Full traceback:" ++ nl ++ error_details))).

Definition default_model_name : str :=
  lit "Salesforce/blip-image-captioning-base".

(** [ImageCaptioner(model_name)], run after the lines [out] were
    printed: the new object when the constructor returns, the exception
    when it raises, and in both cases the lines handed to [print] and the
    requests made. *)
Definition __init__ (name : str) (out : list str)
  : result captioner * list str * list request :=
  let fresh :=
    mkCaptioner name
                (if cuda_is_available H then lit "cuda" else lit "cpu")
                None None in
  match _load_model (mkLoading fresh out []) with
  | (Ok _, s) => (Ok (this s), stdout s, requests s)
  | (Raise e, s) => (Raise e, stdout s, requests s)
  end.

End Constructor.

Arguments model_name {H} c.
Arguments device {H} c.
Arguments model {H} c.
Arguments processor {H} c.

End Loading.

(* ===================================================================== *)
(** ** main.py *)
(* ===================================================================== *)

Module App.

Import ImageCaptioner.

(** [tk.NORMAL] and [tk.DISABLED] *)
Inductive widget_state : Type := NORMAL | DISABLED.

(** A reference to a live object ([self.captioner], [self.tts_engine]). *)
Inductive obj : Type := Instance.

(** [self.normal_colors] and [self.high_contrast_colors] *)
Inductive colors : Type := normal_colors | high_contrast_colors.

(** The targets of the worker threads: the local functions [load],
    [generate] and [speak]. *)
Inductive task : Type := TaskLoad | TaskGenerate | TaskSpeak.

(** What a handler or a worker does that is not a field of the
    application: message boxes, file dialogs, threads, speech. *)
Inductive effect : Type :=
| ShowWarning (title message : str)
| ShowError (title message : str)
| ShowInfo (title message : str)
| AskOpenFilename
| AskSaveAsFilename (initialfile : str)
| ThreadStart (target : task)
| Say (text : option str).

(** What a worker posts to the event loop with [self.root.after(0, ...)]:
    the bound method [self._on_model_loaded], or a [lambda].  The three
    lambdas made in an [except Exception as e] clause read [e] when they
    run; [e] is a variable of the worker that the closure shares, and
    Python unbinds it when the clause ends.  [cell] is what the variable
    holds when the callback runs: [None] once the clause has ended. *)
Inductive callback : Type :=
| OnModelLoaded
| OnModelError (cell : option exn)
| OnCaptionGenerated (caption : option str)
| OnCaptionError (cell : option exn)
| OnSpeakError (cell : option exn).

(** Everything around the application: the captioner's libraries, Tk's
    image support, pathlib, the file system, the speech engine. *)
Record Platform : Type := {
  vision : Library;
  photo : Type;
  (** [img.thumbnail((600, 400), Image.Resampling.LANCZOS)], which resizes
      in place: the outcome is the resized image. *)
  thumbnail : image vision -> result (image vision);
  (** [ImageTk.PhotoImage(img)] *)
  PhotoImage : image vision -> result photo;
  (** [Path(p).name] and [Path(p).stem] *)
  Path_name : str -> str;
  Path_stem : str -> str;
  (** [os.path.isfile(p)] *)
  isfile : str -> bool;
  (** [os.linesep] *)
  linesep : str;
  (** [open(p, 'w', encoding='utf-8')]: creates or truncates the file. *)
  open_w : str -> result unit;
  (** Handing the encoded text to the operating system and closing. *)
  flush_close : str -> list byte -> result unit;
  (** What the file holds of the encoded text when that fails. *)
  flushed : str -> list byte -> list byte;
  (** [pyttsx3.init()] with the two [setProperty] calls *)
  pyttsx3_init : result unit;
  (** [self.tts_engine.say(text)] followed by [runAndWait()] *)
  say_and_wait : option str -> result unit;
  (** [ImageCaptioner()] *)
  load_model : result unit;
  (** [DRAG_DROP_AVAILABLE] *)
  drag_drop_available : bool;
  (** What reading [e] raises in a closure that runs after the [except]
      clause that bound [e] has ended: a [NameError], whose text depends on
      the version of Python. *)
  unbound_variable_error : exn
}.

Section Application.

Variable P : Platform.

(** The attributes of [AccessibleImageCaptionerApp] that the handlers read
    or write: the session and the widgets' configuration. *)
Record App : Type := mkApp {
  current_image_path : option str;
  current_caption : option str;
  captioner : option obj;
  tts_engine : option obj;
  high_contrast_mode : bool;
  status_label : str;
  image_label_image : option (photo P);
  image_label_text : str;
  caption_text : str;
  caption_text_state : widget_state;
  caption_text_colors : option (str * str);
  color_scheme : colors;
  generate_btn : widget_state;
  read_btn : widget_state;
  export_btn : widget_state;
  progress : bool
}.

(** The files of the machine, latest write first. *)
Definition file_system : Type := list (str * list byte).

Fixpoint read_file (fs : file_system) (path : str) : option (list byte) :=
  match fs with
  | [] => None
  | (p, bytes) :: fs' => if str_eqb p path then Some bytes else read_file fs' path
  end.

Record World : Type := mkWorld {
  self : App;
  files : file_system;
  console : trace (vision P);
  effects : list effect
}.

Definition UI (A : Type) : Type := M World A.

Definition get_self : UI App := fun w => (Ok (self w), w).

Definition update (f : App -> App) : UI unit :=
  modify (fun w => mkWorld (f (self w)) (files w) (console w) (effects w)).

Definition emit (e : effect) : UI unit :=
  modify (fun w => mkWorld (self w) (files w) (console w) (effects w ++ [e])).

Definition store_file (path : str) (bytes : list byte) : UI unit :=
  modify (fun w => mkWorld (self w) ((path, bytes) :: files w) (console w) (effects w)).

(** Code of the captioner run from the application. *)
Definition on_console {A : Type} (c : M (trace (vision P)) A) : UI A :=
  fun w =>
    let (r, t) := c (console w) in
    (r, mkWorld (self w) (files w) t (effects w)).

(** *** Attribute and widget updates *)

Definition set_current_image_path (v : option str) (a : App) : App :=
  mkApp v (current_caption a) (captioner a) (tts_engine a)
        (high_contrast_mode a) (status_label a) (image_label_image a)
        (image_label_text a) (caption_text a) (caption_text_state a)
        (caption_text_colors a) (color_scheme a) (generate_btn a) (read_btn a)
        (export_btn a) (progress a).

Definition set_current_caption (v : option str) (a : App) : App :=
  mkApp (current_image_path a) v (captioner a) (tts_engine a)
        (high_contrast_mode a) (status_label a) (image_label_image a)
        (image_label_text a) (caption_text a) (caption_text_state a)
        (caption_text_colors a) (color_scheme a) (generate_btn a) (read_btn a)
        (export_btn a) (progress a).

Definition set_captioner (v : option obj) (a : App) : App :=
  mkApp (current_image_path a) (current_caption a) v (tts_engine a)
        (high_contrast_mode a) (status_label a) (image_label_image a)
        (image_label_text a) (caption_text a) (caption_text_state a)
        (caption_text_colors a) (color_scheme a) (generate_btn a) (read_btn a)
        (export_btn a) (progress a).

Definition set_tts_engine (v : option obj) (a : App) : App :=
  mkApp (current_image_path a) (current_caption a) (captioner a) v
        (high_contrast_mode a) (status_label a) (image_label_image a)
        (image_label_text a) (caption_text a) (caption_text_state a)
        (caption_text_colors a) (color_scheme a) (generate_btn a) (read_btn a)
        (export_btn a) (progress a).

Definition set_high_contrast_mode (v : bool) (a : App) : App :=
  mkApp (current_image_path a) (current_caption a) (captioner a) (tts_engine a)
        v (status_label a) (image_label_image a)
        (image_label_text a) (caption_text a) (caption_text_state a)
        (caption_text_colors a) (color_scheme a) (generate_btn a) (read_btn a)
        (export_btn a) (progress a).

Definition set_status_label (v : str) (a : App) : App :=
  mkApp (current_image_path a) (current_caption a) (captioner a) (tts_engine a)
        (high_contrast_mode a) v (image_label_image a)
        (image_label_text a) (caption_text a) (caption_text_state a)
        (caption_text_colors a) (color_scheme a) (generate_btn a) (read_btn a)
        (export_btn a) (progress a).

Definition set_image_label (img : option (photo P)) (text : str) (a : App) : App :=
  mkApp (current_image_path a) (current_caption a) (captioner a) (tts_engine a)
        (high_contrast_mode a) (status_label a) img
        text (caption_text a) (caption_text_state a)
        (caption_text_colors a) (color_scheme a) (generate_btn a) (read_btn a)
        (export_btn a) (progress a).

Definition set_caption_text (v : str) (a : App) : App :=
  mkApp (current_image_path a) (current_caption a) (captioner a) (tts_engine a)
        (high_contrast_mode a) (status_label a) (image_label_image a)
        (image_label_text a) v (caption_text_state a)
        (caption_text_colors a) (color_scheme a) (generate_btn a) (read_btn a)
        (export_btn a) (progress a).

Definition set_caption_text_state (v : widget_state) (a : App) : App :=
  mkApp (current_image_path a) (current_caption a) (captioner a) (tts_engine a)
        (high_contrast_mode a) (status_label a) (image_label_image a)
        (image_label_text a) (caption_text a) v
        (caption_text_colors a) (color_scheme a) (generate_btn a) (read_btn a)
        (export_btn a) (progress a).

Definition set_caption_text_colors (v : option (str * str)) (a : App) : App :=
  mkApp (current_image_path a) (current_caption a) (captioner a) (tts_engine a)
        (high_contrast_mode a) (status_label a) (image_label_image a)
        (image_label_text a) (caption_text a) (caption_text_state a)
        v (color_scheme a) (generate_btn a) (read_btn a)
        (export_btn a) (progress a).

Definition set_color_scheme (v : colors) (a : App) : App :=
  mkApp (current_image_path a) (current_caption a) (captioner a) (tts_engine a)
        (high_contrast_mode a) (status_label a) (image_label_image a)
        (image_label_text a) (caption_text a) (caption_text_state a)
        (caption_text_colors a) v (generate_btn a) (read_btn a)
        (export_btn a) (progress a).

Definition set_generate_btn (v : widget_state) (a : App) : App :=
  mkApp (current_image_path a) (current_caption a) (captioner a) (tts_engine a)
        (high_contrast_mode a) (status_label a) (image_label_image a)
        (image_label_text a) (caption_text a) (caption_text_state a)
        (caption_text_colors a) (color_scheme a) v (read_btn a)
        (export_btn a) (progress a).

Definition set_read_btn (v : widget_state) (a : App) : App :=
  mkApp (current_image_path a) (current_caption a) (captioner a) (tts_engine a)
        (high_contrast_mode a) (status_label a) (image_label_image a)
        (image_label_text a) (caption_text a) (caption_text_state a)
        (caption_text_colors a) (color_scheme a) (generate_btn a) v
        (export_btn a) (progress a).

Definition set_export_btn (v : widget_state) (a : App) : App :=
  mkApp (current_image_path a) (current_caption a) (captioner a) (tts_engine a)
        (high_contrast_mode a) (status_label a) (image_label_image a)
        (image_label_text a) (caption_text a) (caption_text_state a)
        (caption_text_colors a) (color_scheme a) (generate_btn a) (read_btn a)
        v (progress a).

Definition set_progress (v : bool) (a : App) : App :=
  mkApp (current_image_path a) (current_caption a) (captioner a) (tts_engine a)
        (high_contrast_mode a) (status_label a) (image_label_image a)
        (image_label_text a) (caption_text a) (caption_text_state a)
        (caption_text_colors a) (color_scheme a) (generate_btn a) (read_btn a)
        (export_btn a) v.

(** The three non-ASCII prefixes of the status texts, as the source file
    holds them. *)
Definition mark_ok : str := [226; 339; 8220]%N.
Definition mark_failed : str := [226; 339; 8212]%N.
Definition mark_speaker : str := [240; 376; 8221; 352]%N.


(** *** [__init__] *)

Definition drag_drop_text : str :=
  if drag_drop_available P
  then nl ++ nl ++ lit "Drag & drop an image here or click 'Select Image'"
  else nl ++ nl ++ lit "Click 'Select Image' to begin".

(** The attributes after the assignments of [__init__] and the widget
    creation of [_create_widgets], before [_init_tts] has run. *)
Definition created : App :=
  {| current_image_path := None;
     current_caption := None;
     captioner := None;
     tts_engine := None;
     high_contrast_mode := false;
     status_label := lit "Loading model, please wait...";
     image_label_image := None;
     image_label_text := lit "No image selected" ++ drag_drop_text;
     caption_text := [];
     caption_text_state := DISABLED;
     caption_text_colors := None;
     color_scheme := normal_colors;
     generate_btn := DISABLED;
     read_btn := DISABLED;
     export_btn := DISABLED;
     progress := false |}.

Definition _init_tts : UI unit :=
  try_except
    (lift (pyttsx3_init P) ;;;
     update (set_tts_engine (Some Instance)))
    (fun e =>
       emit (ShowError (lit "TTS Error")
               (lit "Failed to initialize text-to-speech: " ++ exn_str e))).

Definition _load_model_async : UI unit :=
  emit (ThreadStart TaskLoad).

Definition init : UI unit :=
  _init_tts ;;; _load_model_async.

Definition startup (fs : file_system) : World :=
  snd (init (mkWorld created fs [] [])).

(** *** Opening an image *)

(** The [try] block of [_load_image]. *)
Definition _load_image_body (image_path : str) : UI unit :=
  update (set_current_image_path (Some image_path)) ;;;
  img <- lift (Image_open (vision P) image_path) ;;
  img <- lift (thumbnail P img) ;;
  photo <- lift (PhotoImage P img) ;;
  update (set_image_label (Some photo) []) ;;;
  app <- get_self ;;
  (if truthy_obj (captioner app)
   then update (set_generate_btn NORMAL)
   else ret tt) ;;;
  let filename := Path_name P image_path in
  update (set_status_label (lit "Image loaded: " ++ filename)) ;;;
  update (set_caption_text_state NORMAL) ;;;
  update (set_caption_text []) ;;;
  update (set_caption_text_state DISABLED) ;;;
  update (set_current_caption None) ;;;
  update (set_read_btn DISABLED) ;;;
  update (set_export_btn DISABLED).

Definition _load_image (image_path : str) : UI unit :=
  try_except
    (_load_image_body image_path)
    (fun e =>
       emit (ShowError (lit "Error")
               (lit "Failed to load image:" ++ nl ++ exn_str e))).

(** [select_image]; [chosen] is what the file dialog returns, the empty
    string when the user cancels. *)
Definition select_image (chosen : str) : UI unit :=
  emit AskOpenFilename ;;;
  if truthy chosen then _load_image chosen else ret tt.

(** [_on_drop]; [data] is [event.data]. *)
Definition _on_drop (data : str) : UI unit :=
  let file_path := strip_chars (lit "{}") data in
  if isfile P file_path then _load_image file_path else ret tt.

(** *** Reading aloud *)

Definition read_aloud : UI unit :=
  app <- get_self ;;
  if negb (truthy_opt (current_caption app)) then
    emit (ShowWarning (lit "No Caption") (lit "Please generate a caption first."))
  else if negb (truthy_obj (tts_engine app)) then
    emit (ShowError (lit "TTS Error")
            (lit "Text-to-speech engine is not available."))
  else
    emit (ThreadStart TaskSpeak) ;;;
    update (set_status_label (mark_speaker ++ lit " Reading caption aloud...")).

(** [obj.attr] where [obj] is [None]. *)
Definition AttributeError (attr : str) : exn :=
  mkExn (lit "AttributeError")
        (lit "'NoneType' object has no attribute '" ++ attr ++ lit "'").

(** [self.captioner.attr] and [self.tts_engine.attr] *)
Definition getattr (x : option obj) (attr : str) : UI unit :=
  match x with
  | Some Instance => ret tt
  | None => raise (AttributeError attr)
  end.

(** The worker [speak]: it reads [self.current_caption] when it runs.  In
    its [except] clause it posts a lambda that reads [e]; the clause then
    ends, so the callback that waits in the event loop's queue finds [e]
    unbound. *)
Definition speak : UI (option callback) :=
  app <- get_self ;;
  try_except
    (getattr (tts_engine app) (lit "say") ;;;
     emit (Say (current_caption app)) ;;;
     lift (say_and_wait P (current_caption app)) ;;;
     ret None)
    (fun _ => ret (Some (OnSpeakError None))).

(** *** Generating a caption *)

Definition generate_caption : UI unit :=
  app <- get_self ;;
  if negb (truthy_opt (current_image_path app)) then
    emit (ShowWarning (lit "No Image") (lit "Please select an image first."))
  else if negb (truthy_obj (captioner app)) then
    emit (ShowWarning (lit "Model Not Ready")
            (lit "Please wait for the model to load."))
  else
    update (set_generate_btn DISABLED) ;;;
    update (set_progress true) ;;;
    update (set_status_label (lit "Generating caption...")) ;;;
    emit (ThreadStart TaskGenerate).

Definition TypeError : exn :=
  mkExn (lit "TypeError") (lit "expected str, got NoneType").

(** An attribute holding [Optional[str]] used where a [str] is required.
    Both uses below come after a test that the attribute holds a
    non-empty string, so the [None] case is never taken. *)
Definition as_str (x : option str) : result str :=
  match x with
  | Some s => Ok s
  | None => Raise TypeError
  end.

(** The worker [generate]: it reads [self.captioner] and
    [self.current_image_path] when it runs, and calls the captioner with
    the default [max_length=50] and [num_beams=4].  With no path the
    captioner's [Image.open] raises inside its [try] block, which takes it
    to its [except] branch.  The worker's own [except] clause posts a
    lambda that reads [e] and then ends, so the callback that waits in the
    event loop's queue finds [e] unbound. *)
Definition generate : UI callback :=
  app <- get_self ;;
  try_except
    (getattr (captioner app) (lit "generate_caption") ;;;
     caption <- match current_image_path app with
                | Some path =>
                    on_console (ImageCaptioner.generate_caption (vision P) path 50 4)
                | None =>
                    on_console (generate_caption_handler (vision P)
                                  (Image_open_None (vision P)))
                end ;;
     ret (OnCaptionGenerated caption))
    (fun _ => ret (OnCaptionError None)).

Definition _on_caption_error (error_msg : str) : UI unit :=
  update (set_progress false) ;;;
  update (set_generate_btn NORMAL) ;;;
  update (set_status_label (mark_failed ++ lit " Caption generation failed")) ;;;
  emit (ShowError (lit "Error")
          (lit "Caption generation failed:" ++ nl ++ error_msg)).

Definition _on_caption_generated (caption : option str) : UI unit :=
  update (set_progress false) ;;;
  update (set_generate_btn NORMAL) ;;;
  if truthy_opt caption then
    update (set_current_caption caption) ;;;
    update (set_caption_text_state NORMAL) ;;;
    update (set_caption_text []) ;;;
    text <- lift (as_str caption) ;;
    update (fun a => set_caption_text (text ++ caption_text a) a) ;;;
    update (set_caption_text_state DISABLED) ;;;
    update (set_read_btn NORMAL) ;;;
    update (set_export_btn NORMAL) ;;;
    update (set_status_label (mark_ok ++ lit " Caption generated successfully!")) ;;;
    read_aloud
  else
    _on_caption_error (lit "Failed to generate caption").

(** *** Loading the model *)

(** The worker [load]: it assigns [self.captioner] itself.  In its
    [except] clause it posts a lambda that reads [e]; the clause then ends,
    so the callback that waits in the event loop's queue finds [e]
    unbound. *)
Definition load : UI callback :=
  try_except
    (lift (load_model P) ;;;
     update (set_captioner (Some Instance)) ;;;
     ret OnModelLoaded)
    (fun _ => ret (OnModelError None)).

Definition _on_model_loaded : UI unit :=
  update (set_status_label
            (mark_ok ++ lit " Model loaded successfully! Select an image to begin.")) ;;;
  emit (ShowInfo (lit "Ready") (lit "Image captioning model loaded successfully!")).

Definition _on_model_error (error_msg : str) : UI unit :=
  update (set_status_label
            (mark_failed ++ lit " Failed to load model. Please restart the application.")) ;;;
  emit (ShowError (lit "Model Error")
          (lit "Failed to load captioning model:" ++ nl ++ error_msg)).

(** *** Exporting the caption *)

(** Leaving the [with] block: the encoded text goes to the file, all of
    it when the flush succeeds and what the system took of it when not. *)
Definition close_file (file_path : str) (bytes : list byte) : UI unit :=
  match flush_close P file_path bytes with
  | Ok _ => store_file file_path bytes
  | Raise e => store_file file_path (flushed P file_path bytes) ;;; raise e
  end.

(** The [try] block of [export_caption]: the [with open(...)] statement,
    the status line and the confirmation. *)
Definition export_body (file_path : str) : UI unit :=
  lift (open_w P file_path) ;;;
  store_file file_path [] ;;;
  app <- get_self ;;
  text <- lift (as_str (current_caption app)) ;;
  bytes <- lift (text_file_bytes (linesep P) text) ;;
  close_file file_path bytes ;;;
  update (set_status_label
            (mark_ok ++ lit " Caption exported to " ++ Path_name P file_path)) ;;;
  emit (ShowInfo (lit "Success")
          (lit "Caption exported successfully to:" ++ nl ++ file_path)).

(** [export_caption]; [chosen] is what the save dialog returns, the empty
    string when the user cancels. *)
Definition export_caption (chosen : str) : UI unit :=
  app <- get_self ;;
  if negb (truthy_opt (current_caption app)) then
    emit (ShowWarning (lit "No Caption") (lit "Please generate a caption first."))
  else
    let suggested_name :=
      match current_image_path app with
      | Some path =>
          if truthy path then Path_stem P path ++ lit "_caption.txt"
          else lit "caption.txt"
      | None => lit "caption.txt"
      end in
    emit (AskSaveAsFilename suggested_name) ;;;
    if truthy chosen then
      try_except
        (export_body chosen)
        (fun e =>
           emit (ShowError (lit "Export Error")
                   (lit "Failed to export caption:" ++ nl ++ exn_str e)))
    else ret tt.

(** *** High contrast *)

Definition toggle_high_contrast : UI unit :=
  update (fun a => set_high_contrast_mode (negb (high_contrast_mode a)) a) ;;;
  app <- get_self ;;
  (if high_contrast_mode app then
     update (set_status_label (lit "High contrast mode enabled")) ;;;
     update (set_color_scheme high_contrast_colors)
   else
     update (set_status_label (lit "Normal mode enabled")) ;;;
     update (set_color_scheme normal_colors)) ;;;
  if high_contrast_mode app then
    update (set_caption_text_colors (Some (lit "#000000", lit "#FFFF00")))
  else
    update (set_caption_text_colors (Some (lit "#FFFFFF", lit "#000000"))).

(** *** The event loop *)

(** What the event loop delivers to the application: the user's commands
    (buttons, menu entries and keyboard shortcuts reach the same methods)
    and the callbacks posted by the workers. *)
Inductive event : Type :=
| SelectImage (chosen : str)
| DropFile (data : str)
| GenerateCaption
| ReadAloud
| ExportCaption (chosen : str)
| ToggleHighContrast
| Posted (cb : callback).

(** Reading [e] in a posted lambda. *)
Definition read_e (cell : option exn) : UI exn :=
  match cell with
  | Some e => ret e
  | None => raise (unbound_variable_error P)
  end.

(** Running a posted callback.  When it raises, Tk reports the exception on
    [sys.stderr] and the event loop goes on. *)
Definition run_callback (cb : callback) : UI unit :=
  match cb with
  | OnModelLoaded => _on_model_loaded
  | OnModelError cell =>
      e <- read_e cell ;;
      _on_model_error (exn_str e)
  | OnCaptionGenerated caption => _on_caption_generated caption
  | OnCaptionError cell =>
      e <- read_e cell ;;
      _on_caption_error (exn_str e)
  | OnSpeakError cell =>
      e <- read_e cell ;;
      emit (ShowError (lit "TTS Error")
              (lit "Failed to read aloud:" ++ nl ++ exn_str e))
  end.

Definition handle (ev : event) : UI unit :=
  match ev with
  | SelectImage chosen => select_image chosen
  | DropFile data => _on_drop data
  | GenerateCaption => generate_caption
  | ReadAloud => read_aloud
  | ExportCaption chosen => export_caption chosen
  | ToggleHighContrast => toggle_high_contrast
  | Posted cb => run_callback cb
  end.

(** The world after the event loop has delivered [evs], in order. *)
Fixpoint deliver (evs : list event) (w : World) : World :=
  match evs with
  | [] => w
  | ev :: rest => deliver rest (snd (handle ev w))
  end.

(** An event that puts a caption into the session: the completion of a
    caption worker with a non-empty caption. *)
Definition brings_caption (ev : event) : bool :=
  match ev with
  | Posted (OnCaptionGenerated caption) => truthy_opt caption
  | _ => false
  end.

(** The session holds no caption and the two affordances that need one
    are disabled. *)
Definition without_caption (w : World) : Prop :=
  current_caption (self w) = None /\
  read_btn (self w) = DISABLED /\
  export_btn (self w) = DISABLED.

(** The two affordances that need a caption are enabled only while the
    session holds one. *)
Definition affordances_backed (w : World) : Prop :=
  read_btn (self w) = NORMAL \/ export_btn (self w) = NORMAL ->
  truthy_opt (current_caption (self w)) = true.

(** What a refused command leaves: the same application, one warning
    more. *)
Definition refused (w : World) : World :=
  mkWorld (self w) (files w) (console w)
    (effects w ++ [ShowWarning (lit "No Caption")
                     (lit "Please generate a caption first.")]).

(** [exported chosen w w']: between [w] and [w'] the save dialog was shown
    and the export to [chosen] was confirmed to the user. *)
Definition exported (chosen : str) (w w' : World) : Prop :=
  exists name,
    effects w' =
    effects w ++ [AskSaveAsFilename name;
                  ShowInfo (lit "Success")
                    (lit "Caption exported successfully to:" ++ nl ++ chosen)].

End Application.

Arguments current_image_path {P} a.
Arguments current_caption {P} a.
Arguments captioner {P} a.
Arguments tts_engine {P} a.
Arguments high_contrast_mode {P} a.
Arguments status_label {P} a.
Arguments image_label_image {P} a.
Arguments image_label_text {P} a.
Arguments caption_text {P} a.
Arguments caption_text_state {P} a.
Arguments caption_text_colors {P} a.
Arguments color_scheme {P} a.
Arguments generate_btn {P} a.
Arguments read_btn {P} a.
Arguments export_btn {P} a.
Arguments progress {P} a.
Arguments self {P} w.
Arguments files {P} w.
Arguments console {P} w.
Arguments effects {P} w.
Arguments set_current_image_path {P} v a.
Arguments set_current_caption {P} v a.
Arguments set_captioner {P} v a.
Arguments set_tts_engine {P} v a.
Arguments set_high_contrast_mode {P} v a.
Arguments set_status_label {P} v a.
Arguments set_caption_text {P} v a.
Arguments set_caption_text_state {P} v a.
Arguments set_caption_text_colors {P} v a.
Arguments set_color_scheme {P} v a.
Arguments set_generate_btn {P} v a.
Arguments set_read_btn {P} v a.
Arguments set_export_btn {P} v a.
Arguments set_progress {P} v a.
Arguments set_image_label {P} img text a.
Arguments without_caption {P} w.
Arguments refused {P} w.
Arguments exported {P} chosen w w'.
Arguments affordances_backed {P} w.
Arguments mkWorld {P} self files console effects.

End App.

(* ===================================================================== *)
(** ** The event loop and the worker threads

    [threading.Thread(target=..., daemon=True).start()] hands a worker to
    the operating system, and [self.root.after(0, ...)] hands a callback
    to Tk's event loop.  The machine below keeps the workers that were
    started and have not run yet, and the callbacks that were posted and
    have not been delivered yet.  A worker reads the session once, when it
    starts its work, so it is run in one move, [except] clause included:
    a callback is delivered after the worker that posted it is done.
    Workers and callbacks may be taken in any order. *)
(* ===================================================================== *)

Module EventLoop.

Import ImageCaptioner App.

(** The workers that a list of effects starts, in order. *)
Definition threads_of (es : list effect) : list task :=
  flat_map (fun e => match e with ThreadStart t => [t] | _ => [] end) es.

(** What the user can do; a callback only comes from a worker. *)
Definition is_command (ev : event) : bool :=
  match ev with
  | Posted _ => false
  | _ => true
  end.

Definition remove_nth {A : Type} (i : nat) (l : list A) : list A :=
  firstn i l ++ skipn (S i) l.

Inductive move : Type :=
| Command (ev : event)
| RunWorker (i : nat)
| DeliverCallback (i : nat).

Section Scheduling.

Variable P : Platform.

Record Machine : Type := mkMachine {
  world : World P;
  running : list task;
  posted : list callback
}.

(** The effects of [after] that [before] did not have yet. *)
Definition added (before after : World P) : list effect :=
  skipn (List.length (effects before)) (effects after).

(** The body of a worker, with the callback it posts, if any. *)
Definition work (t : task) : UI P (option callback) :=
  match t with
  | TaskLoad => cb <- load P ;; ret (Some cb)
  | TaskGenerate => cb <- generate P ;; ret (Some cb)
  | TaskSpeak => speak P
  end.

Definition step (mv : move) (m : Machine) : option Machine :=
  match mv with
  | Command ev =>
      if is_command ev then
        let w' := snd (handle P ev (world m)) in
        Some (mkMachine w'
                (running m ++ threads_of (added (world m) w'))
                (posted m))
      else None
  | RunWorker i =>
      match nth_error (running m) i with
      | Some t =>
          match work t (world m) with
          | (Ok (Some cb), w') =>
              Some (mkMachine w' (remove_nth i (running m)) (posted m ++ [cb]))
          | (_, w') =>
              Some (mkMachine w' (remove_nth i (running m)) (posted m))
          end
      | None => None
      end
  | DeliverCallback i =>
      match nth_error (posted m) i with
      | Some cb =>
          let w' := snd (run_callback P cb (world m)) in
          Some (mkMachine w'
                  (running m ++ threads_of (added (world m) w'))
                  (remove_nth i (posted m)))
      | None => None
      end
  end.

Fixpoint run (mvs : list move) (m : Machine) : option Machine :=
  match mvs with
  | [] => Some m
  | mv :: rest =>
      match step mv m with
      | Some m' => run rest m'
      | None => None
      end
  end.

(** The machine when [__init__] returns. *)
Definition boot (fs : file_system) : Machine :=
  let w := startup P fs in
  mkMachine w (threads_of (effects w)) [].

Definition reachable (fs : file_system) (m : Machine) : Prop :=
  exists mvs, run mvs (boot fs) = Some m.

(** A caption is on its way, or there: a caption worker is running, a
    caption callback is posted, or the session holds a caption. *)
Definition caption_in_sight (m : Machine) : Prop :=
  In TaskGenerate (running m) \/
  (exists caption, In (OnCaptionGenerated caption) (posted m)) \/
  truthy_opt (current_caption (self (world m))) = true.

(** Every caption in sight has an image behind it, and every running
    caption worker a captioner. *)
Definition image_backed (m : Machine) : Prop :=
  (caption_in_sight m ->
   truthy_opt (current_image_path (self (world m))) = true) /\
  (In TaskGenerate (running m) -> captioner (self (world m)) <> None).

(** The [load] worker has been started and has not run yet. *)
Definition load_pending (m : Machine) : Prop :=
  exists rest,
    running m = TaskLoad :: rest /\
    ~ In TaskLoad rest /\
    captioner (self (world m)) = None.

(** The [load] worker has run: the captioner is there exactly when
    [ImageCaptioner()] returned. *)
Definition load_done (m : Machine) : Prop :=
  ~ In TaskLoad (running m) /\
  ((load_model P = Ok tt /\ captioner (self (world m)) = Some Instance) \/
   ((exists e, load_model P = Raise e) /\ captioner (self (world m)) = None)).

End Scheduling.

Arguments world {P} m.
Arguments running {P} m.
Arguments posted {P} m.
Arguments mkMachine {P} world running posted.
Arguments caption_in_sight {P} m.
Arguments added {P} before after.
Arguments image_backed {P} m.
Arguments load_pending {P} m.
Arguments load_done {P} m.

End EventLoop.

(* ===================================================================== *)
(** ** A concrete machine

    One instance of the libraries, small enough to run the program on:
    four image files exist, every other path fails to open; the model's
    answer depends on the file only. *)
(* ===================================================================== *)

Module Demo.

Import ImageCaptioner App.

(** An image: the file it came from and its colour mode. *)
Record picture : Type := mkPicture { origin : str; picture_mode : str }.

Definition photo_jpg : str := lit "photo.jpg".
Definition scan_png : str := lit "scan.png".
Definition blank_jpg : str := lit "blank.jpg".
Definition sign_png : str := lit "sign.png".
Definition imgA : str := lit "imgA".

Definition FileNotFoundError (path : str) : exn :=
  mkExn (lit "FileNotFoundError")
        (lit "[Errno 2] No such file or directory: '" ++ path ++ lit "'").

Definition demo_open (path : str) : result picture :=
  if str_eqb path photo_jpg then Ok (mkPicture path (lit "RGB"))
  else if str_eqb path scan_png then Ok (mkPicture path (lit "L"))
  else if str_eqb path blank_jpg then Ok (mkPicture path (lit "RGB"))
  else if str_eqb path sign_png then Ok (mkPicture path (lit "RGB"))
  else Raise (FileNotFoundError path).

(** The decoded text, before [strip]: blanks only for [blank.jpg], two
    lines for [sign.png]. *)
Definition demo_decode (ids : str) : result str :=
  if str_eqb ids blank_jpg then Ok (lit "  ")
  else if str_eqb ids sign_png then Ok (lit "stop" ++ nl ++ lit "ahead")
  else Ok (lit "a red square" ++ nl).

(** A console that takes the lines its encoding has the characters for,
    and raises as [str.encode] does on the others.  The bytes are not
    kept. *)
Definition utf8_console (line : str) : result (list byte) :=
  encode_from (lit "utf-8") (lit "surrogates not allowed")
    (fun c => if ((55296 <=? c) && (c <=? 57343))%N then None else Some [])
    0 line.

Definition ascii_console (line : str) : result (list byte) :=
  encode_from (lit "ascii") (lit "ordinal not in range(128)")
    (fun c => if (c <? 128)%N then Some [] else None)
    0 line.

Definition demo_write (codec : str -> result (list byte)) (line : str)
  : result unit :=
  match codec line with
  | Ok _ => Ok tt
  | Raise e => Raise e
  end.

Definition library_on (codec : str -> result (list byte)) : Library :=
  {| image := picture;
     tensors := picture;
     token_ids := str;
     Image_open := demo_open;
     Image_open_None :=
       mkExn (lit "AttributeError")
             (lit "'NoneType' object has no attribute 'read'");
     mode := picture_mode;
     convert := fun img m => Ok (mkPicture (origin img) m);
     processor := fun img => Ok img;
     model_generate := fun inputs _ _ => Ok [origin inputs];
     empty_output_error :=
       mkExn (lit "IndexError")
             (lit "index 0 is out of bounds for dimension 0 with size 0");
     processor_decode := demo_decode;
     stdout_write := demo_write codec |}.

(** The libraries with a UTF-8 console, and with an ASCII one. *)
Definition library : Library := library_on utf8_console.
Definition ascii_library : Library := library_on ascii_console.

(** A file that does not exist, with a name outside ASCII. *)
Definition cafe_png : str := lit "caf" ++ [233]%N ++ lit ".png".

(** [Path(p).stem] for a name without directories: the name up to its
    last dot. *)
Fixpoint drop_suffix (rev_name : str) : str :=
  match rev_name with
  | [] => []
  | c :: rest => if (c =? 46)%N then rest else drop_suffix rest
  end.

Definition demo_stem (name : str) : str :=
  if in_chars name 46%N then rev (drop_suffix (rev name)) else name.

Definition demo_name_error : exn :=
  mkExn (lit "NameError")
        (lit "cannot access free variable 'e' where it is not associated with a value in enclosing scope").

(** The machine, with its line separator and whether a speech engine is
    installed. *)
Definition platform (sep : str) (speech : bool) : Platform :=
  {| vision := library;
     photo := picture;
     thumbnail := fun img => Ok img;
     PhotoImage := fun img => Ok img;
     Path_name := fun p => p;
     Path_stem := demo_stem;
     isfile := fun p => negb (is_raise (demo_open p));
     linesep := sep;
     open_w := fun _ => Ok tt;
     flush_close := fun _ _ => Ok tt;
     flushed := fun _ _ => [];
     pyttsx3_init :=
       if speech then Ok tt
       else Raise (mkExn (lit "RuntimeError") (lit "no speech driver"));
     say_and_wait := fun _ => Ok tt;
     load_model := Ok tt;
     drag_drop_available := false;
     unbound_variable_error := demo_name_error |}.

Definition posix : Platform := platform [LF] true.
Definition windows : Platform := platform [CR; LF] true.
Definition silent : Platform := platform [LF] false.

(** The application once the model is loaded: [__init__], then the
    worker [load] and its callback. *)
Definition ready (P : Platform) : World P :=
  let w := startup P [] in
  let (_, w) := load P w in
  deliver P [Posted OnModelLoaded] w.

(** ... with the file at [path] selected and Generate Caption pressed ... *)
Definition requested (P : Platform) (path : str) : World P :=
  deliver P [SelectImage path; GenerateCaption] (ready P).

(** ... and once the worker [generate] has run and its callback has been
    delivered. *)
Definition captioned (P : Platform) (path : str) : World P :=
  match generate P (requested P path) with
  | (Ok cb, w) => deliver P [Posted cb] w
  | (Raise _, w) => w
  end.

(** *** Machines that fail

    The same machine with a disk that refuses every write, or without the
    model files. *)

Definition PermissionError (path : str) : exn :=
  mkExn (lit "PermissionError")
        (lit "[Errno 13] Permission denied: '" ++ path ++ lit "'").

Definition failing (writable online : bool) : Platform :=
  {| vision := library;
     photo := picture;
     thumbnail := fun img => Ok img;
     PhotoImage := fun img => Ok img;
     Path_name := fun p => p;
     Path_stem := demo_stem;
     isfile := fun p => negb (is_raise (demo_open p));
     linesep := [LF];
     open_w := fun p => if writable then Ok tt else Raise (PermissionError p);
     flush_close := fun _ _ => Ok tt;
     flushed := fun _ _ => [];
     pyttsx3_init := Ok tt;
     say_and_wait := fun _ => Ok tt;
     load_model :=
       if online then Ok tt
       else Raise (mkExn (lit "RuntimeError") (lit "Failed to load model: offline"));
     drag_drop_available := false;
     unbound_variable_error := demo_name_error |}.

Definition readonly : Platform := failing false true.
Definition offline : Platform := failing true false.

(** *** Runs of the event loop *)

(** The machine after [mvs], started with no files. *)
Definition after_moves (P : Platform) (mvs : list EventLoop.move)
  : EventLoop.Machine P :=
  match EventLoop.run P mvs (EventLoop.boot P []) with
  | Some m => m
  | None => EventLoop.boot P []
  end.

(** Whether every move of [mvs] can be made, one after the other. *)
Definition runs (P : Platform) (mvs : list EventLoop.move) : bool :=
  match EventLoop.run P mvs (EventLoop.boot P []) with
  | Some _ => true
  | None => false
  end.

(** The model loads, the user selects [photo.jpg] and asks for a
    caption. *)
Definition ask_for_caption : list EventLoop.move :=
  [EventLoop.RunWorker 0; EventLoop.DeliverCallback 0;
   EventLoop.Command (SelectImage photo_jpg);
   EventLoop.Command GenerateCaption].

(** ... and the caption worker runs and its callback is delivered. *)
Definition get_caption : list EventLoop.move :=
  ask_for_caption ++ [EventLoop.RunWorker 0; EventLoop.DeliverCallback 0].

(** The load worker runs, its callback is delivered and the user selects
    [photo.jpg]. *)
Definition load_then_select : list EventLoop.move :=
  [EventLoop.RunWorker 0; EventLoop.DeliverCallback 0;
   EventLoop.Command (SelectImage photo_jpg)].

End Demo.

(* ===================================================================== *)
(** * Properties *)
(* ===================================================================== *)

Import ImageCaptioner App.

(** ** Strings *)

Lemma str_eqb_eq (a b : str) : str_eqb a b = true <-> a = b.
Proof.
  unfold str_eqb. destruct (list_eq_dec N.eq_dec a b); split; congruence.
Qed.

Lemma str_eqb_neq (a b : str) : str_eqb a b = false <-> a <> b.
Proof.
  unfold str_eqb. destruct (list_eq_dec N.eq_dec a b); split; congruence.
Qed.

Lemma truthy_false (s : str) : truthy s = false <-> s = [].
Proof. destruct s; split; cbn; congruence. Qed.

Lemma lstrip_blank (s : str) : lstrip s = [] <-> forallb isspace s = true.
Proof.
  induction s as [|c s IH]; cbn; [tauto|].
  destruct (isspace c); cbn; [exact IH|]. split; congruence.
Qed.

Lemma lstrip_keeps_blankness (s : str) :
  forallb isspace (lstrip s) = forallb isspace s.
Proof.
  induction s as [|c s IH]; cbn; [reflexivity|].
  destruct (isspace c) eqn:E; cbn; [exact IH|]. now rewrite E.
Qed.

Lemma forallb_reversed {A : Type} (f : A -> bool) (l : list A) :
  forallb f (rev l) = forallb f l.
Proof.
  induction l as [|a l IH]; cbn; [reflexivity|].
  rewrite forallb_app, IH. cbn. rewrite andb_true_r. apply andb_comm.
Qed.

(** [strip] leaves nothing exactly when the text is blank. *)
Lemma strip_blank (s : str) : strip s = [] <-> forallb isspace s = true.
Proof.
  unfold strip, rstrip.
  rewrite <- (lstrip_keeps_blankness s), <- (forallb_reversed isspace (lstrip s)).
  rewrite <- lstrip_blank.
  split; intros H.
  - apply (f_equal (@rev N)) in H. now rewrite rev_involutive in H.
  - now rewrite H.
Qed.

(** A few values, checked against the Python interpreter's. *)

Example strip_example :
  strip (lit "  a red square" ++ nl) = lit "a red square".
Proof. reflexivity. Qed.

Example strip_chars_example :
  strip_chars (lit "{}") (lit "{/tmp/a b.png}") = lit "/tmp/a b.png".
Proof. reflexivity. Qed.

Example utf8_example :
  utf8_encode [233; 8364; 128512]%N =
  Ok [xc3; xa9; xe2; x82; xac; xf0; x9f; x98; x80].
Proof. reflexivity. Qed.

Example utf8_surrogate_example :
  utf8_encode [97; 55357]%N =
  Raise (mkExn (lit "UnicodeEncodeError")
           (lit "'utf-8' codec can't encode character '\ud83d' in position 1: surrogates not allowed")).
Proof. reflexivity. Qed.

Example utf8_surrogates_example :
  utf8_encode [56448; 56449; 56450]%N =
  Raise (mkExn (lit "UnicodeEncodeError")
           (lit "'utf-8' codec can't encode characters in position 0-2: surrogates not allowed")).
Proof. reflexivity. Qed.

Example ascii_example :
  ascii_encode (lit "caf" ++ [233]%N) =
  Raise (mkExn (lit "UnicodeEncodeError")
           (lit "'ascii' codec can't encode character '\xe9' in position 3: ordinal not in range(128)")).
Proof. reflexivity. Qed.

Example ascii_wide_example :
  ascii_encode [128512; 97]%N =
  Raise (mkExn (lit "UnicodeEncodeError")
           (lit "'ascii' codec can't encode character '\U0001f600' in position 0: ordinal not in range(128)")).
Proof. reflexivity. Qed.

Example text_file_surrogate_example :
  text_file_bytes [CR; LF] (lit "a" ++ nl ++ lit "b" ++ [56448]%N) =
  Raise (mkExn (lit "UnicodeEncodeError")
           (lit "'utf-8' codec can't encode character '\udc80' in position 4: surrogates not allowed")).
Proof. reflexivity. Qed.

Example text_file_example :
  text_file_bytes [CR; LF] (lit "a" ++ nl) = Ok [x61; x0d; x0a].
Proof. reflexivity. Qed.

(** ** The captioner *)

Section CaptionerFacts.

Variable L : Library.

Ltac unfold_captioner :=
  cbv [ImageCaptioner.generate_caption generate_caption_body
       generate_caption_handler try_except bind
       invoke print modify lift ret first_row].

Ltac case_oracles :=
  repeat (match goal with
          | |- context [Image_open L ?p] => destruct (Image_open L p) eqn:?
          | |- context [str_eqb ?a ?b] => destruct (str_eqb a b) eqn:?
          | |- context [convert L ?i ?m] => destruct (convert L i m) eqn:?
          | |- context [processor L ?i] => destruct (processor L i) eqn:?
          | |- context [model_generate L ?i ?a ?b] =>
              destruct (model_generate L i a b) as [[|? ?]|] eqn:?
          | |- context [processor_decode L ?i] =>
              destruct (processor_decode L i) eqn:?
          | |- context [stdout_write L ?s] =>
              destruct (stdout_write L s) as [[]|] eqn:?
          end; cbv beta iota delta [negb fst snd]).

(** The run of [generate_caption] does not depend on what was recorded
    before it: it only appends. *)
Lemma generate_caption_shift path ml nb t :
  ImageCaptioner.generate_caption L path ml nb t =
  (fst (ImageCaptioner.generate_caption L path ml nb []),
   t ++ snd (ImageCaptioner.generate_caption L path ml nb [])).
Proof.
  unfold_captioner.
  case_oracles; cbn [fst snd app]; rewrite <- ?app_assoc; reflexivity.
Qed.

Ltac read_modes :=
  repeat match goal with
         | H : str_eqb _ _ = true |- _ => apply str_eqb_eq in H
         | H : str_eqb _ _ = false |- _ => apply str_eqb_neq in H
         end.

Ltac write_modes :=
  repeat match goal with
         | H : _ = RGB |- _ => apply str_eqb_eq in H
         | H : _ <> RGB |- _ => apply str_eqb_neq in H
         end.

Ltac replay :=
  repeat match goal with
         | H : ?x = _ |- context [?x] => rewrite H; cbv beta iota delta [negb fst snd]
         end.

Create HintDb captioner.
#[local] Hint Constructors feeds fails decodes : captioner.

(** How a call ends: when every step succeeds it returns the decoded
    text, stripped; when a step raises, it returns [None] if the line that
    reports the failure can be printed, and lets the exception of [print]
    out if not. *)
Lemma outcome_of_cases path ml nb :
  (exists text, decodes L path ml nb text /\
                outcome_of L path ml nb = Ok (Some (strip text))) \/
  (exists e, fails L path ml nb e /\
             outcome_of L path ml nb =
             match stdout_write L (error_text e) with
             | Ok _ => Ok None
             | Raise e' => Raise e'
             end).
Proof.
  unfold outcome_of, error_text. unfold_captioner.
  case_oracles; read_modes;
    first [ right; eexists; split;
            [solve [eauto 7 with captioner]
            |replay; cbn [fst]; reflexivity]
          | left; eexists; split;
            [solve [eauto 7 with captioner] | reflexivity] ].
Qed.

(** Either a step raises and the caller gets no caption, or every step
    succeeds and the caller gets the decoded text, stripped. *)
Lemma caption_of_cases path ml nb :
  (exists e, fails L path ml nb e /\ caption_of L path ml nb = None) \/
  (exists text, decodes L path ml nb text /\
                caption_of L path ml nb = Some (strip text)).
Proof.
  change (caption_of L path ml nb)
    with (match outcome_of L path ml nb with Ok c => c | Raise _ => None end).
  destruct (outcome_of_cases path ml nb) as [(text & Ht & ->)|(e & He & ->)].
  - right. now exists text.
  - left. exists e. split; [exact He|].
    destruct (stdout_write L (error_text e)); reflexivity.
Qed.

(** The steps are functions of what they are given: a run that fails does
    not decode, and it fails in one way. *)
Lemma fails_gives_none path ml nb e :
  fails L path ml nb e -> caption_of L path ml nb = None.
Proof.
  intros H. unfold caption_of. unfold_captioner.
  destruct H;
    repeat match goal with H : feeds _ _ _ |- _ => destruct H end;
    write_modes; replay;
    match goal with
    | |- context [stdout_write L ?s] => destruct (stdout_write L s) as [[]|]
    end; reflexivity.
Qed.

Lemma decodes_gives_text path ml nb text :
  decodes L path ml nb text -> caption_of L path ml nb = Some (strip text).
Proof.
  intros H. unfold caption_of. unfold_captioner.
  destruct H;
    repeat match goal with H : feeds _ _ _ |- _ => destruct H end;
    write_modes; replay; reflexivity.
Qed.

(** A failing run ends as its [print] does. *)
Lemma fails_outcome path ml nb e :
  fails L path ml nb e ->
  outcome_of L path ml nb =
  match stdout_write L (error_text e) with
  | Ok _ => Ok None
  | Raise e' => Raise e'
  end.
Proof.
  intros H. unfold outcome_of, error_text. unfold_captioner.
  destruct H;
    repeat match goal with H : feeds _ _ _ |- _ => destruct H end;
    write_modes; replay;
    match goal with
    | |- context [stdout_write L ?s] => destruct (stdout_write L s) as [[]|]
    end; reflexivity.
Qed.

(** The last thing a failing run asks for is the line that reports the
    failure. *)
Lemma fails_calls path ml nb e :
  fails L path ml nb e ->
  exists calls,
    snd (ImageCaptioner.generate_caption L path ml nb []) =
    calls ++ [CallPrint (error_text e)].
Proof.
  intros H. unfold error_text. unfold_captioner.
  destruct H;
    repeat match goal with H : feeds _ _ _ |- _ => destruct H end;
    write_modes; replay;
    match goal with
    | |- context [stdout_write L ?s] => destruct (stdout_write L s) as [[]|]
    end; cbn [snd app];
    match goal with
    | |- exists calls, ?l = _ => exists (removelast l); reflexivity
    end.
Qed.

(** When the failures of the run can be reported, the call returns. *)
Lemma generate_caption_returns path ml nb t :
  reportable L path ml nb ->
  fst (ImageCaptioner.generate_caption L path ml nb t) =
  Ok (caption_of L path ml nb).
Proof.
  intros Hrep. rewrite generate_caption_shift. cbn [fst].
  change (outcome_of L path ml nb =
          Ok (match outcome_of L path ml nb with Ok c => c | Raise _ => None end)).
  destruct (outcome_of_cases path ml nb) as [(text & _ & ->)|(e & He & ->)];
    [reflexivity|].
  now rewrite (Hrep e He).
Qed.

(** Two ways to know that the failures of a run can be reported: the
    file cannot be opened and the console takes the line for that; or
    nothing fails. *)
Lemma reportable_open_failure path ml nb e :
  Image_open L path = Raise e ->
  stdout_write L (error_text e) = Ok tt ->
  reportable L path ml nb.
Proof.
  intros Hopen Hwrite e' H.
  destruct H;
    repeat match goal with H : feeds _ _ _ |- _ => destruct H end;
    congruence.
Qed.

Lemma reportable_decodes path ml nb text :
  decodes L path ml nb text -> reportable L path ml nb.
Proof.
  intros Hdec e H.
  apply decodes_gives_text in Hdec. apply fails_gives_none in H. congruence.
Qed.

(** Whatever reaches the processor was opened from the file and, unless
    it already was RGB, converted. *)
Lemma processor_call_feeds path ml nb img :
  In (CallProcessor img) (snd (ImageCaptioner.generate_caption L path ml nb [])) ->
  feeds L path img.
Proof.
  unfold_captioner.
  case_oracles; read_modes; cbn [app In]; intros H;
    repeat (destruct H as [H|H]; try discriminate H; try contradiction);
    injection H as <-; eauto with captioner.
Qed.

(** The model is only ever given what the processor made of such an
    image, with the caller's two parameters. *)
Lemma model_call_follows_processor
    (path : str) (ml nb : Z) (inputs : tensors L) (ml' nb' : Z) :
  In (CallGenerate inputs ml' nb')
     (snd (ImageCaptioner.generate_caption L path ml nb [])) ->
  ml' = ml /\ nb' = nb /\
  exists img, feeds L path img /\ processor L img = Ok inputs.
Proof.
  unfold_captioner.
  case_oracles; read_modes; cbn [app In]; intros H;
    repeat (destruct H as [H|H]; try discriminate H; try contradiction);
    injection H as <- <- <-; eauto 6 with captioner.
Qed.

(** For a file that is not RGB the conversion is the first thing asked
    after opening it, and only its result can reach the processor. *)
Lemma convert_comes_first path ml nb im :
  Image_open L path = Ok im ->
  mode L im <> RGB ->
  exists rest,
    snd (ImageCaptioner.generate_caption L path ml nb []) =
    CallOpen path :: CallConvert im RGB :: rest /\
    forall img, In (CallProcessor img) rest -> convert L im RGB = Ok img.
Proof.
  intros Hopen Hmode. write_modes.
  unfold_captioner. rewrite Hopen. cbv beta iota. rewrite Hmode.
  cbv beta iota delta [negb].
  case_oracles; cbn [app]; eexists; (split; [reflexivity|]);
    cbn [In]; intros img H;
    repeat (destruct H as [H|H]; try discriminate H; try contradiction);
    injection H as <-; reflexivity.
Qed.

(** An image that was opened and, unless it already was RGB, converted,
    is handed to the processor. *)
Lemma image_reaches_processor path ml nb img :
  feeds L path img ->
  In (CallProcessor img) (snd (ImageCaptioner.generate_caption L path ml nb [])).
Proof.
  intros H. unfold_captioner.
  destruct H; write_modes; replay; case_oracles; cbn [app In]; tauto.
Qed.

(** What the processor made of it is handed to the model, with the
    caller's two parameters. *)
Lemma inputs_reach_model path ml nb img inputs :
  feeds L path img ->
  processor L img = Ok inputs ->
  In (CallGenerate inputs ml nb)
     (snd (ImageCaptioner.generate_caption L path ml nb [])).
Proof.
  intros H Hproc. unfold_captioner.
  destruct H; write_modes; replay; case_oracles; cbn [app In]; tauto.
Qed.

(** While the failures can be reported the batch loop goes on, and
    appends one entry per path. *)
Lemma batch_loop_runs paths ml nb :
  (forall p, In p paths -> reportable L p ml nb) ->
  forall captions t,
  exists t',
    batch_loop L paths ml nb captions t =
    (Ok (captions ++
         map (fun p => caption_or_sentinel (caption_of L p ml nb)) paths), t').
Proof.
  induction paths as [|p paths IH]; intros Hrep captions t; cbn [batch_loop map].
  - exists t. now rewrite app_nil_r.
  - unfold bind at 1.
    destruct (ImageCaptioner.generate_caption L p ml nb t) as [r t1] eqn:E.
    pose proof (generate_caption_returns p ml nb t (Hrep p (or_introl eq_refl))) as R.
    rewrite E in R. cbn [fst] in R. subst r.
    destruct (IH (fun q Hq => Hrep q (or_intror Hq))
                 (captions ++ [caption_or_sentinel (caption_of L p ml nb)]) t1)
      as [t' ->].
    exists t'. now rewrite <- app_assoc.
Qed.

(** C9.  [generate_caption] does let an exception out: the [print] of
    its [except] branch is not protected.  When a step of the [try] block
    raises [e] and the console refuses the line that reports it, the call
    ends with the exception of [print], having asked for nothing after
    that line; the caller gets neither a string nor [None]. *)
Theorem generate_caption_lets_print_failure_out path ml nb t e e' :
  fails L path ml nb e ->
  stdout_write L (error_text e) = Raise e' ->
  exists calls,
    ImageCaptioner.generate_caption L path ml nb t =
    (Raise e', t ++ calls ++ [CallPrint (error_text e)]).
Proof.
  intros H Hprint. rewrite generate_caption_shift.
  rewrite (surjective_pairing (ImageCaptioner.generate_caption L path ml nb [])).
  cbn [fst snd].
  change (fst (ImageCaptioner.generate_caption L path ml nb []))
    with (outcome_of L path ml nb).
  rewrite (fails_outcome path ml nb e H), Hprint.
  destruct (fails_calls path ml nb e H) as [calls ->]. now exists calls.
Qed.

(** C1, as amended.  As long as the failure of each image can be reported
    on the console, [batch_generate_captions] returns one entry per path,
    in order: the caption when [generate_caption] gave a non-empty one,
    and otherwise (it gave [None], or the empty string) the placeholder,
    which is spelled "Unable to generate caption".  For a two-element
    batch of a path that cannot be opened the result is the placeholder
    twice. *)
Theorem batch_generate_captions_total paths ml nb t :
  (forall p, In p paths -> reportable L p ml nb) ->
  exists captions t',
    batch_generate_captions L paths ml nb t = (Ok captions, t') /\
    List.length captions = List.length paths /\
    (forall i p, nth_error paths i = Some p ->
       caption_of L p ml nb = None \/ caption_of L p ml nb = Some [] ->
       nth_error captions i = Some (lit "Unable to generate caption")) /\
    (forall i p c, nth_error paths i = Some p ->
       caption_of L p ml nb = Some c -> c <> [] ->
       nth_error captions i = Some c) /\
    (forall imgA e, paths = [imgA; imgA] ->
       Image_open L imgA = Raise e ->
       captions = [lit "Unable to generate caption";
                   lit "Unable to generate caption"]).
Proof.
  intros Hrep. unfold batch_generate_captions.
  destruct (batch_loop_runs paths ml nb Hrep [] t) as [t' E]. cbn [app] in E.
  eexists. exists t'. split; [exact E|].
  split; [apply length_map|].
  split; [|split].
  - intros i p Hp [Hnone|Hempty];
      rewrite nth_error_map, Hp; cbn; [now rewrite Hnone|now rewrite Hempty].
  - intros i p c Hp Hsome Hc.
    rewrite nth_error_map, Hp. cbn. rewrite Hsome. cbn.
    destruct c; [congruence|reflexivity].
  - intros imgA e -> Hopen. cbn [map].
    rewrite (@fails_gives_none imgA ml nb e) by now constructor.
    reflexivity.
Qed.

(** C7. [generate_caption] hands an RGB image to the processor, the first
    step of inference, whenever it gets that far: once the file is opened
    and, if its mode is not RGB, converted, the resulting image is given
    to the processor, and what the processor makes of it is given to the
    model.  Nothing else reaches either of them: whatever the processor
    receives is the opened image when its mode is RGB and the result of
    [convert("RGB")] otherwise, and for a file whose mode is not RGB the
    conversion is requested right after the file is opened, before the
    processor is reached.  As [convert("RGB")] returns an RGB image,
    inference only ever receives RGB images. *)
Theorem inference_receives_rgb
    (convert_gives_rgb :
       forall img img', convert L img RGB = Ok img' -> mode L img' = RGB)
    path ml nb t :
  exists r new,
    ImageCaptioner.generate_caption L path ml nb t = (r, t ++ new) /\
    (forall img, feeds L path img ->
       mode L img = RGB /\ In (CallProcessor img) new) /\
    (forall img inputs, feeds L path img -> processor L img = Ok inputs ->
       In (CallGenerate inputs ml nb) new) /\
    (forall img, In (CallProcessor img) new ->
       feeds L path img /\ mode L img = RGB) /\
    (forall inputs ml' nb', In (CallGenerate inputs ml' nb') new ->
       exists img, feeds L path img /\ mode L img = RGB /\
                   processor L img = Ok inputs) /\
    (forall im, Image_open L path = Ok im -> mode L im <> RGB ->
       exists rest,
         new = CallOpen path :: CallConvert im RGB :: rest /\
         forall img, In (CallProcessor img) rest ->
                     convert L im RGB = Ok img).
Proof.
  assert (Hrgb : forall img, feeds L path img -> mode L img = RGB).
  { intros img [im _ Hmode|im img' _ _ Hconv]; eauto. }
  rewrite generate_caption_shift.
  eexists. eexists. split; [reflexivity|].
  split; [|split; [|split; [|split]]].
  - intros img Hfed. split; [auto|]. now apply image_reaches_processor.
  - intros img inputs Hfed Hproc. now apply inputs_reach_model with (img := img).
  - intros img Hin. apply processor_call_feeds in Hin. auto.
  - intros inputs ml' nb' Hin.
    apply model_call_follows_processor in Hin as (_ & _ & img & Hfed & Hproc).
    exists img. auto.
  - intros im Hopen Hmode. now apply convert_comes_first.
Qed.

End CaptionerFacts.

(** ** The application *)

Section ApplicationFacts.

Variable P : Platform.

Ltac run_ui :=
  cbv [handle run_callback select_image _on_drop _load_image _load_image_body
       read_aloud speak App.generate_caption _on_caption_generated
       _on_caption_error _on_model_loaded _on_model_error export_caption
       export_body close_file toggle_high_contrast refused as_str
       read_e getattr
       bind ret raise get_self update emit modify lift try_except store_file
       set_current_image_path set_current_caption set_captioner set_tts_engine
       set_high_contrast_mode set_status_label set_image_label set_caption_text
       set_caption_text_state set_caption_text_colors set_color_scheme
       set_generate_btn set_read_btn set_export_btn set_progress
       self files console effects
       current_image_path current_caption captioner tts_engine
       high_contrast_mode status_label image_label_image image_label_text
       caption_text caption_text_state caption_text_colors color_scheme
       generate_btn read_btn export_btn progress fst snd negb].

Ltac project_all :=
  cbn [self files console effects
       current_image_path current_caption captioner tts_engine
       high_contrast_mode status_label image_label_image image_label_text
       caption_text caption_text_state caption_text_colors color_scheme
       generate_btn read_btn export_btn progress fst snd] in *.

Ltac project :=
  cbn [self files console effects
       current_image_path current_caption captioner tts_engine
       high_contrast_mode status_label image_label_image image_label_text
       caption_text caption_text_state caption_text_colors color_scheme
       generate_btn read_btn export_btn progress fst snd].

(** The world as its fields, so that every update computes. *)
Ltac open_world w :=
  let a := fresh "app" in
  destruct w as [a ? ? ?]; destruct a; project_all.

(** [read_aloud] with nothing to read: a warning, and nothing else. *)
Lemma read_aloud_without_caption (w : World P) :
  truthy_opt (current_caption (self w)) = false ->
  read_aloud P w = (Ok tt, refused w).
Proof.
  intros H. open_world w. run_ui. rewrite H. reflexivity.
Qed.

(** [export_caption] with nothing to export: the same warning, no dialog,
    no file. *)
Lemma export_without_caption (chosen : str) (w : World P) :
  truthy_opt (current_caption (self w)) = false ->
  export_caption P chosen w = (Ok tt, refused w).
Proof.
  intros H. open_world w. run_ui. rewrite H. reflexivity.
Qed.

(** C5. With no caption in the session, [read_aloud] changes nothing of the
    application (the session, the widgets, the files are what they were),
    shows the warning "Please generate a caption first." and starts no
    worker: the warning is the only effect. *)
Theorem read_aloud_rejected (w : World P) :
  current_caption (self w) = None ->
  exists w',
    read_aloud P w = (Ok tt, w') /\
    self w' = self w /\
    files w' = files w /\
    console w' = console w /\
    effects w' =
      effects w ++ [ShowWarning (lit "No Caption")
                      (lit "Please generate a caption first.")] /\
    ~ In (ThreadStart TaskSpeak)
         [ShowWarning (lit "No Caption") (lit "Please generate a caption first.")].
Proof.
  intros H. exists (refused w). split.
  - apply read_aloud_without_caption. now rewrite H.
  - cbn. intuition discriminate.
Qed.

(** C6. With no image in the session, or with the model not loaded yet
    ([self.captioner] still [None]), [generate_caption] changes nothing of
    the application, shows a warning and starts no worker: the warning is
    the only effect. *)
Theorem generate_caption_rejected (w : World P) :
  current_image_path (self w) = None \/ captioner (self w) = None ->
  exists w' title message,
    App.generate_caption P w = (Ok tt, w') /\
    self w' = self w /\
    files w' = files w /\
    console w' = console w /\
    effects w' = effects w ++ [ShowWarning title message] /\
    (title = lit "No Image" \/ title = lit "Model Not Ready") /\
    ~ In (ThreadStart TaskGenerate) [ShowWarning title message].
Proof.
  intros H. open_world w. run_ui.
  destruct H as [->| ->]; cbn [truthy_opt truthy_obj]; run_ui.
  - do 3 eexists. split; [reflexivity|]. cbn. intuition discriminate.
  - match goal with
    | |- context [truthy_opt ?x] => destruct (truthy_opt x)
    end; run_ui;
      do 3 eexists; (split; [reflexivity|]); cbn; intuition discriminate.
Qed.

(** The [try] block of [_load_image] raises exactly when the file cannot
    be opened, resized or turned into a Tk image; by then only the path
    has been stored. *)
Lemma load_image_body_raises (path : str) (w : World P) (e : exn) (w1 : World P) :
  _load_image_body P path w = (Raise e, w1) ->
  w1 = mkWorld (set_current_image_path (Some path) (self w))
               (files w) (console w) (effects w) /\
  (Image_open (vision P) path = Raise e \/
   (exists img, Image_open (vision P) path = Ok img /\
                thumbnail P img = Raise e) \/
   (exists img small, Image_open (vision P) path = Ok img /\
                      thumbnail P img = Ok small /\
                      PhotoImage P small = Raise e)).
Proof.
  open_world w. run_ui.
  destruct (Image_open (vision P) path) as [img|e1] eqn:Hopen.
  - destruct (thumbnail P img) as [small|e2] eqn:Hthumb.
    + destruct (PhotoImage P small) as [ph|e3] eqn:Hphoto.
      * match goal with
        | |- context [truthy_obj ?x] => destruct (truthy_obj x)
        end; run_ui; intros [=].
      * intros [= <- <-]. split; [reflexivity|]. eauto 10.
    + intros [= <- <-]. split; [reflexivity|]. eauto 10.
  - intros [= <- <-]. split; [reflexivity|]. eauto.
Qed.

(** C10. When the [try] block of [_load_image] raises (the file cannot be
    opened, resized or displayed), [_load_image] returns normally after an
    error box, and the application is what it was except for
    [current_image_path], which already holds the new path: the caption
    and the states of the Read Aloud and Export buttons are the previous
    ones. *)
Theorem load_image_failure_keeps_caption
    (path : str) (w : World P) (e : exn) (w1 : World P) :
  _load_image_body P path w = (Raise e, w1) ->
  exists w',
    _load_image P path w = (Ok tt, w') /\
    self w' = set_current_image_path (Some path) (self w) /\
    current_image_path (self w') = Some path /\
    current_caption (self w') = current_caption (self w) /\
    read_btn (self w') = read_btn (self w) /\
    export_btn (self w') = export_btn (self w) /\
    generate_btn (self w') = generate_btn (self w) /\
    files w' = files w /\
    effects w' =
      effects w ++ [ShowError (lit "Error")
                      (lit "Failed to load image:" ++ nl ++ exn_str e)].
Proof.
  intros Hbody.
  destruct (load_image_body_raises path w e w1 Hbody) as [-> _].
  unfold _load_image, try_except. rewrite Hbody.
  eexists. split; [reflexivity|]. cbn. repeat split.
Qed.

Ltac case_ui :=
  repeat (match goal with
          | |- context [Image_open (vision P) ?p] =>
              destruct (Image_open (vision P) p) eqn:?
          | |- context [thumbnail P ?i] => destruct (thumbnail P i) eqn:?
          | |- context [PhotoImage P ?i] => destruct (PhotoImage P i) eqn:?
          | |- context [isfile P ?p] => destruct (isfile P p) eqn:?
          | |- context [open_w P ?p] => destruct (open_w P p) as [[]|] eqn:?
          | |- context [text_file_bytes ?a ?b] =>
              destruct (text_file_bytes a b) eqn:?
          | |- context [flush_close P ?p ?b] =>
              destruct (flush_close P p b) as [[]|] eqn:?
          | |- context [say_and_wait P ?x] =>
              destruct (say_and_wait P x) as [[]|] eqn:?
          | |- context [truthy_obj ?x] => destruct (truthy_obj x) eqn:?
          | |- context [truthy_opt ?x] => destruct (truthy_opt x) eqn:?
          | |- context [truthy ?x] => destruct (truthy x) eqn:?
          | |- context [as_str ?x] => destruct (as_str x) eqn:?
          | |- context [if ?b then _ else _] => destruct b eqn:?
          | |- context [match ?x with Some _ => _ | None => _ end] =>
              destruct x eqn:?
          end; run_ui).

(** Until a caption arrives, the session stays without one and the two
    affordances stay disabled, whatever else the event loop delivers. *)
Lemma handle_keeps_without_caption (ev : event) (w : World P) :
  brings_caption ev = false ->
  without_caption w ->
  without_caption (snd (handle P ev w)).
Proof.
  unfold without_caption. intros Hev (Hcap & Hread & Hexp).
  open_world w. subst.
  destruct ev as [chosen|data| | |chosen| |[|[e|]|caption|[e|]|[e|]]];
    cbn [brings_caption] in Hev;
    run_ui; rewrite ?Hev; cbn [truthy_opt]; run_ui;
    case_ui; auto.
Qed.

Lemma deliver_keeps_without_caption (evs : list event) : forall w : World P,
  existsb brings_caption evs = false ->
  without_caption w ->
  without_caption (deliver P evs w).
Proof.
  induction evs as [|ev evs IH]; intros w Hquiet Hw; cbn [deliver]; [exact Hw|].
  cbn [existsb] in Hquiet. apply orb_false_iff in Hquiet as [Hev Hevs].
  apply IH; [exact Hevs|]. now apply handle_keeps_without_caption.
Qed.

(** Every handler keeps the two affordances backed by a caption. *)
Lemma handle_keeps_affordances_backed (ev : event) (w : World P) :
  affordances_backed w -> affordances_backed (snd (handle P ev w)).
Proof.
  unfold affordances_backed. intros Hw. open_world w.
  destruct ev as [chosen|data| | |chosen| |[|[e|]|caption|[e|]|[e|]]];
    run_ui; case_ui; auto;
    intros Hb; try (destruct Hb as [Hb|Hb]; discriminate Hb);
    first [congruence | specialize (Hw Hb); congruence].
Qed.

(** From startup on, Read Aloud and Export are enabled only while the
    session holds a non-empty caption. *)
Lemma affordances_always_backed (fs : file_system) (evs : list event) :
  affordances_backed (deliver P evs (startup P fs)).
Proof.
  assert (H0 : affordances_backed (startup P fs)).
  { unfold affordances_backed, startup, init, _init_tts, _load_model_async, created.
    run_ui. destruct (pyttsx3_init P) as [[]|]; run_ui; intros [H|H]; discriminate H. }
  revert H0. generalize (startup P fs).
  induction evs as [|ev evs IH]; intros w Hw; cbn [deliver]; [exact Hw|].
  apply IH. now apply handle_keeps_affordances_backed.
Qed.

(** A load that goes through: what it leaves. *)
Lemma load_image_runs
    (path : str) (w : World P) (img small : image (vision P)) (ph : photo P) :
  Image_open (vision P) path = Ok img ->
  thumbnail P img = Ok small ->
  PhotoImage P small = Ok ph ->
  exists w',
    _load_image P path w = (Ok tt, w') /\
    current_image_path (self w') = Some path /\
    current_caption (self w') = None /\
    read_btn (self w') = DISABLED /\
    export_btn (self w') = DISABLED /\
    image_label_image (self w') = Some ph /\
    effects w' = effects w.
Proof.
  intros Hopen Hthumb Hphoto. open_world w. run_ui.
  rewrite Hopen. run_ui. rewrite Hthumb. run_ui. rewrite Hphoto. run_ui.
  match goal with
  | |- context [truthy_obj ?x] => destruct (truthy_obj x)
  end; run_ui; eexists; (split; [reflexivity|]); project; repeat split.
Qed.

(** C2, as amended.  When [_load_image] opens, resizes and displays the
    file, the session holds the new path and no caption, the Read Aloud
    and Export buttons are disabled and no notice is shown; whatever the
    event loop delivers next, the session stays without a caption, the two
    buttons stay disabled and both commands are refused, until a caption
    worker completes with a non-empty caption. *)
Theorem load_image_clears_caption
    (path : str) (w : World P) (img small : image (vision P)) (ph : photo P) :
  Image_open (vision P) path = Ok img ->
  thumbnail P img = Ok small ->
  PhotoImage P small = Ok ph ->
  exists w',
    _load_image P path w = (Ok tt, w') /\
    current_image_path (self w') = Some path /\
    current_caption (self w') = None /\
    read_btn (self w') = DISABLED /\
    export_btn (self w') = DISABLED /\
    image_label_image (self w') = Some ph /\
    effects w' = effects w /\
    (forall evs, existsb brings_caption evs = false ->
       without_caption (deliver P evs w')) /\
    (forall evs chosen, existsb brings_caption evs = false ->
       read_aloud P (deliver P evs w') = (Ok tt, refused (deliver P evs w')) /\
       export_caption P chosen (deliver P evs w') =
         (Ok tt, refused (deliver P evs w'))).
Proof.
  intros Hopen Hthumb Hphoto.
  destruct (load_image_runs path w img small ph Hopen Hthumb Hphoto)
    as (w' & Hrun & Hpath & Hcap & Hread & Hexp & Himg & Heff).
  assert (Hquiet : forall evs, existsb brings_caption evs = false ->
                               without_caption (deliver P evs w')).
  { intros evs Hevs.
    apply deliver_keeps_without_caption; [exact Hevs|]. now repeat split. }
  exists w'. repeat (split; [assumption|]).
  intros evs chosen Hevs.
  destruct (Hquiet evs Hevs) as (Hnone & _ & _).
  split.
  - apply read_aloud_without_caption. now rewrite Hnone.
  - apply export_without_caption. now rewrite Hnone.
Qed.

(** C4, as amended.  When a caption worker completes with a non-empty
    caption, [_on_caption_generated] stores and shows the caption, enables
    Read Aloud and Export and calls [read_aloud] itself.  If the speech
    engine was initialised, this starts one [speak] worker, and run on the
    resulting session that worker hands this very caption to the engine.
    If it was not, the only effect is the error box "Text-to-speech engine
    is not available." and no worker is started. *)
Theorem caption_is_read_aloud (c : str) (w : World P) :
  truthy c = true ->
  exists w',
    _on_caption_generated P (Some c) w = (Ok tt, w') /\
    current_caption (self w') = Some c /\
    caption_text (self w') = c /\
    read_btn (self w') = NORMAL /\
    export_btn (self w') = NORMAL /\
    (tts_engine (self w) <> None ->
       effects w' = effects w ++ [ThreadStart TaskSpeak] /\
       effects (snd (speak P w')) = effects w' ++ [Say (Some c)]) /\
    (tts_engine (self w) = None ->
       effects w' =
       effects w ++ [ShowError (lit "TTS Error")
                       (lit "Text-to-speech engine is not available.")]).
Proof.
  intros Hc. open_world w.
  match goal with
  | |- context [?engine <> None] => destruct engine as [[]|]
  end;
    run_ui; cbn [truthy_opt truthy_obj]; rewrite Hc; run_ui;
    eexists; (split; [reflexivity|]); project; rewrite app_nil_r;
    (repeat (split; [reflexivity|])); split; try congruence; intros _.
  split; [reflexivity|].
  destruct (say_and_wait P (Some c)) as [[]|]; reflexivity.
Qed.

(** *** Export *)

Lemma translate_newlines_lf (s : str) : translate_newlines [LF] s = s.
Proof.
  unfold translate_newlines.
  induction s as [|c s IH]; cbn [flat_map]; [reflexivity|].
  rewrite IH. destruct (N.eqb_spec c LF) as [->|_]; reflexivity.
Qed.

Lemma translate_newlines_plain (sep s : str) :
  ~ In LF s -> translate_newlines sep s = s.
Proof.
  unfold translate_newlines.
  induction s as [|c s IH]; cbn [flat_map In]; [reflexivity|]. intros Hnot.
  rewrite IH by tauto.
  destruct (N.eqb_spec c LF) as [->|_]; [tauto|reflexivity].
Qed.

Lemma read_file_stored (fs : file_system) (path : str) (bytes : list byte) :
  read_file ((path, bytes) :: fs) path = Some bytes.
Proof.
  cbn. now rewrite (proj2 (str_eqb_eq path path) eq_refl).
Qed.

Ltac not_exported :=
  let name := fresh "name" in
  let H := fresh "H" in
  intros [name H];
  first [ apply app_inv_head in H; discriminate H
        | rewrite <- app_assoc in H; apply app_inv_head in H; discriminate H ].

(** C8, as amended.  Whenever [export_caption] confirms an export, the
    file at the chosen path holds the UTF-8 encoding of the session's
    caption as a text-mode file receives it: each line feed of the
    caption replaced by the platform's line separator, and nothing else
    changed, added before or added after.  Where the separator is the
    line feed itself, or the caption has no line feed, these are exactly
    the bytes of the caption's UTF-8 encoding. *)
Theorem export_writes_caption (chosen : str) (w : World P) :
  exported chosen w (snd (export_caption P chosen w)) ->
  exists c bytes,
    current_caption (self w) = Some c /\
    c <> [] /\
    utf8_encode (translate_newlines (linesep P) c) = Ok bytes /\
    read_file (files (snd (export_caption P chosen w))) chosen = Some bytes /\
    current_caption (self (snd (export_caption P chosen w))) = Some c /\
    (linesep P = [LF] -> utf8_encode c = Ok bytes) /\
    (~ In LF c -> utf8_encode c = Ok bytes).
Proof.
  unfold exported. open_world w. run_ui.
  match goal with
  | |- context [truthy_opt ?x] => destruct x as [[|c0 c]|]
  end; cbn [truthy_opt truthy as_str]; run_ui; try not_exported.
  destruct (truthy chosen); run_ui; [|not_exported].
  destruct (open_w P chosen) as [[]|]; run_ui; [|not_exported].
  destruct (text_file_bytes (linesep P) (c0 :: c)) as [bytes|] eqn:Hbytes;
    run_ui; [|not_exported].
  destruct (flush_close P chosen bytes) as [[]|]; run_ui; [|not_exported].
  intros _. exists (c0 :: c), bytes.
  split; [reflexivity|]. split; [discriminate|]. split; [exact Hbytes|].
  split; [apply read_file_stored|]. split; [reflexivity|].
  unfold text_file_bytes in Hbytes. split.
  - intros Hsep. now rewrite Hsep, translate_newlines_lf in Hbytes.
  - intros Hplain. now rewrite translate_newlines_plain in Hbytes.
Qed.

(** An export goes through when the file opens, the text encodes and the
    bytes reach the disk. *)
Lemma export_goes_through (chosen c : str) (bytes : list byte) (w : World P) :
  current_caption (self w) = Some c ->
  truthy c = true ->
  truthy chosen = true ->
  open_w P chosen = Ok tt ->
  text_file_bytes (linesep P) c = Ok bytes ->
  flush_close P chosen bytes = Ok tt ->
  exported chosen w (snd (export_caption P chosen w)).
Proof.
  intros Hcap Hc Hchosen Hopen Hbytes Hflush.
  unfold exported. open_world w. subst. run_ui.
  cbn [truthy_opt as_str]. rewrite Hc. run_ui. rewrite Hchosen. run_ui.
  rewrite Hopen. run_ui. rewrite Hbytes. run_ui. rewrite Hflush. run_ui.
  eexists. rewrite <- app_assoc. reflexivity.
Qed.

(** *** A caption or a failure *)

(** The worker [generate], run with a captioner and an image in the
    session: with the default parameters it posts what the captioner
    returns for the image, and it posts the lambda of its [except] clause
    when the captioner raises. *)
Lemma generate_posts (path : str) (w : World P) :
  captioner (self w) <> None ->
  current_image_path (self w) = Some path ->
  fst (generate P w) =
  Ok (match outcome_of (vision P) path 50 4 with
      | Ok caption => OnCaptionGenerated caption
      | Raise _ => OnCaptionError None
      end).
Proof.
  intros Hcap Hpath. open_world w. subst.
  match goal with
  | H : ?c <> None |- _ => destruct c as [[]|]; [clear H|congruence]
  end.
  cbv [generate try_except bind get_self on_console ret getattr
       self files console effects captioner current_image_path].
  pose proof (generate_caption_shift (vision P) path 50 4) as R.
  match goal with
  | |- context [ImageCaptioner.generate_caption ?L ?p ?a ?b ?t] =>
      rewrite (R t)
  end.
  fold (outcome_of (vision P) path 50 4).
  destruct (outcome_of (vision P) path 50 4); reflexivity.
Qed.

Lemma generate_posts_caption (path : str) (w : World P) :
  captioner (self w) <> None ->
  current_image_path (self w) = Some path ->
  reportable (vision P) path 50 4 ->
  fst (generate P w) =
  Ok (OnCaptionGenerated (caption_of (vision P) path 50 4)).
Proof.
  intros Hcap Hpath Hrep. rewrite (generate_posts path w Hcap Hpath).
  pose proof (generate_caption_returns (vision P) path 50 4 [] Hrep) as R.
  fold (outcome_of (vision P) path 50 4) in R. now rewrite R.
Qed.

(** C3, as amended.  As long as the failure of a step can be reported on
    the console, [generate_caption] returns: [None] exactly when one of
    its steps fails, and otherwise the decoded text with the surrounding
    whitespace stripped, which is the empty string exactly when the
    decoded text is blank.  The application tells the two apart from a
    caption: [_on_caption_generated] stores a non-empty caption, and for
    [None] and for the empty string alike it leaves the session's caption
    as it was and reports "Failed to generate caption". *)
Theorem caption_or_failure (path : str) (ml nb : Z) (t : trace (vision P))
    (w : World P) :
  reportable (vision P) path ml nb ->
  exists r t',
    ImageCaptioner.generate_caption (vision P) path ml nb t = (Ok r, t') /\
    ((r = None /\ exists e, fails (vision P) path ml nb e) \/
     (exists text,
        decodes (vision P) path ml nb text /\
        r = Some (strip text) /\
        (r = Some [] <-> forallb isspace text = true))) /\
    ((exists c, r = Some c /\ c <> [] /\
                current_caption (self (snd (_on_caption_generated P r w))) =
                Some c) \/
     ((r = None \/ r = Some []) /\
      current_caption (self (snd (_on_caption_generated P r w))) =
      current_caption (self w) /\
      effects (snd (_on_caption_generated P r w)) =
      effects w ++ [ShowError (lit "Error")
                      (lit "Caption generation failed:" ++ nl ++
                       lit "Failed to generate caption")])).
Proof.
  intros Hrep.
  destruct (ImageCaptioner.generate_caption (vision P) path ml nb t)
    as [r0 t'] eqn:Hrun.
  pose proof (generate_caption_returns (vision P) path ml nb t Hrep) as Hr0.
  rewrite Hrun in Hr0. cbn [fst] in Hr0. subst r0.
  remember (caption_of (vision P) path ml nb) as r eqn:Hr.
  exists r, t'. split; [reflexivity|]. split.
  - destruct (caption_of_cases (vision P) path ml nb)
      as [(e & He & Hnone)|(text & Htext & Hsome)].
    + left. split; [congruence|now exists e].
    + right. exists text. split; [exact Htext|]. split; [congruence|].
      rewrite Hr, Hsome, <- strip_blank.
      split; [intros [= H]; exact H|intros ->; reflexivity].
  - clear Hr. open_world w.
    destruct r as [[|c0 c]|]; run_ui; cbn [truthy_opt truthy as_str]; run_ui.
    + right. split; [now right|]. split; reflexivity.
    + left. exists (c0 :: c). split; [reflexivity|]. split; [discriminate|].
      match goal with
      | |- context [truthy_obj ?x] => destruct (truthy_obj x)
      end; run_ui; reflexivity.
    + right. split; [now left|]. split; reflexivity.
Qed.

End ApplicationFacts.

(* ===================================================================== *)
(** * The program on the concrete machine *)
(* ===================================================================== *)

Import Demo.

Ltac no_such_effect :=
  let H := fresh in
  intros H; vm_compute in H;
  repeat (destruct H as [H|H]; [discriminate H|]); exact H.

(** A batch of a file that cannot be opened, twice: the placeholder starts
    with a capital letter, so the result is not the all-lowercase list. *)
Lemma batch_placeholder_is_capitalised :
  Image_open library imgA = Raise (FileNotFoundError imgA) /\
  fst (batch_generate_captions library [imgA; imgA] 50 4 []) =
    Ok [lit "Unable to generate caption"; lit "Unable to generate caption"] /\
  fst (batch_generate_captions library [imgA; imgA] 50 4 []) <>
    Ok [lit "unable to generate caption"; lit "unable to generate caption"].
Proof.
  split; [reflexivity|]. split; [reflexivity|].
  intros H. vm_compute in H. discriminate H.
Qed.

(** An RGB file whose decoded text is blank: [generate_caption] returns
    the empty string, which is neither a non-empty caption nor a failure. *)
Lemma blank_caption_is_returned :
  (exists img, Image_open library blank_jpg = Ok img /\ mode library img = RGB) /\
  fst (ImageCaptioner.generate_caption library blank_jpg 50 4 []) = Ok (Some []) /\
  ~ ((exists c, fst (ImageCaptioner.generate_caption library blank_jpg 50 4 [])
                = Ok (Some c) /\ c <> []) \/
     fst (ImageCaptioner.generate_caption library blank_jpg 50 4 []) = Ok None \/
     (exists e, fst (ImageCaptioner.generate_caption library blank_jpg 50 4 [])
                = Raise e)).
Proof.
  split; [eexists; split; reflexivity|]. split; [reflexivity|].
  intros [(c & H & Hc)|[H|(e & H)]]; vm_compute in H.
  - injection H as <-. now apply Hc.
  - discriminate H.
  - discriminate H.
Qed.

(** With a caption in the session, the user selects a file that is not an
    image: the session names the new file and still holds the old
    caption, and Read Aloud and Export are still enabled. *)
Lemma failed_load_keeps_old_caption :
  let w := captioned posix photo_jpg in
  let w' := snd (handle posix (SelectImage (lit "notes.txt")) w) in
  current_image_path (self w) = Some photo_jpg /\
  current_caption (self w) = Some (lit "a red square") /\
  current_image_path (self w') = Some (lit "notes.txt") /\
  current_caption (self w') = Some (lit "a red square") /\
  current_caption (self w') <> None /\
  read_btn (self w') = NORMAL /\
  export_btn (self w') = NORMAL.
Proof.
  cbv zeta. repeat split; try (reflexivity).
  intros H. vm_compute in H. discriminate H.
Qed.

(** On a machine without a speech engine a caption is generated: it is
    stored, Read Aloud is enabled, no [speak] worker is started and
    nothing is said. *)
Lemma no_speech_without_engine :
  let w := requested silent photo_jpg in
  let w' := snd (_on_caption_generated silent (Some (lit "a red square")) w) in
  fst (generate silent w) = Ok (OnCaptionGenerated (Some (lit "a red square"))) /\
  tts_engine (self w) = None /\
  current_caption (self w') = Some (lit "a red square") /\
  read_btn (self w') = NORMAL /\
  ~ In (ThreadStart TaskSpeak) (effects w') /\
  ~ In (Say (Some (lit "a red square"))) (effects w').
Proof.
  cbv zeta. repeat split; try (reflexivity); no_such_effect.
Qed.

(** Where the line separator is CR LF, a caption of two lines is exported
    with a carriage return its UTF-8 encoding does not have. *)
Lemma crlf_export_differs :
  let caption := lit "stop" ++ nl ++ lit "ahead" in
  let w := captioned windows sign_png in
  let w' := snd (export_caption windows (lit "out.txt") w) in
  current_caption (self w) = Some caption /\
  exported (lit "out.txt") w w' /\
  utf8_encode caption =
    Ok [x73; x74; x6f; x70; x0a; x61; x68; x65; x61; x64] /\
  read_file (files w') (lit "out.txt") =
    Some [x73; x74; x6f; x70; x0d; x0a; x61; x68; x65; x61; x64] /\
  (forall bytes, read_file (files w') (lit "out.txt") = Some bytes ->
                 utf8_encode caption <> Ok bytes).
Proof.
  cbv zeta. split; [reflexivity|].
  split; [exists (lit "sign_caption.txt"); reflexivity|].
  split; [reflexivity|].
  split; [reflexivity|].
  intros bytes H. vm_compute in H. injection H as <-.
  intros H. vm_compute in H. discriminate H.
Qed.

(** The grayscale scan is converted, and the converted image is what the
    processor receives. *)
Lemma inference_receives_rgb_witness :
  mode library (mkPicture scan_png (lit "L")) <> RGB /\
  exists r new,
    ImageCaptioner.generate_caption library scan_png 50 4 [] = (r, [] ++ new) /\
    (forall img, feeds library scan_png img ->
       mode library img = RGB /\ In (CallProcessor img) new) /\
    (forall img inputs, feeds library scan_png img ->
       processor library img = Ok inputs ->
       In (CallGenerate inputs 50 4) new) /\
    (forall img, In (CallProcessor img) new ->
       feeds library scan_png img /\ mode library img = RGB) /\
    (forall inputs ml' nb', In (CallGenerate inputs ml' nb') new ->
       exists img, feeds library scan_png img /\ mode library img = RGB /\
                   processor library img = Ok inputs) /\
    (forall im, Image_open library scan_png = Ok im -> mode library im <> RGB ->
       exists rest,
         new = CallOpen scan_png :: CallConvert im RGB :: rest /\
         forall img, In (CallProcessor img) rest ->
                     convert library im RGB = Ok img).
Proof.
  split; [intros H; vm_compute in H; discriminate H|].
  apply (inference_receives_rgb library).
  intros img img' H. cbn in H. injection H as <-. reflexivity.
Defined.

(** A batch of a file that cannot be opened, twice, on a console that
    takes the line reporting it. *)
Lemma batch_generate_captions_total_witness :
  Image_open library imgA = Raise (FileNotFoundError imgA) /\
  stdout_write library (error_text (FileNotFoundError imgA)) = Ok tt /\
  exists captions t',
    batch_generate_captions library [imgA; imgA] 50 4 [] = (Ok captions, t') /\
    List.length captions = 2 /\
    captions = [lit "Unable to generate caption";
                lit "Unable to generate caption"].
Proof.
  split; [reflexivity|]. split; [reflexivity|].
  destruct (batch_generate_captions_total library [imgA; imgA] 50 4 [])
    as (captions & t' & Hrun & Hlen & _ & _ & Htwice).
  - intros p [<-|[<-|[]]];
      apply (reportable_open_failure library imgA 50 4 (FileNotFoundError imgA));
      reflexivity.
  - exists captions, t'. split; [exact Hrun|]. split; [exact Hlen|].
    apply (Htwice imgA (FileNotFoundError imgA)); reflexivity.
Defined.

(** The caption of [photo.jpg], where nothing fails, handed to the
    application. *)
Lemma caption_or_failure_witness :
  let w := requested posix photo_jpg in
  decodes library photo_jpg 50 4 (lit "a red square" ++ nl) /\
  exists r t',
    ImageCaptioner.generate_caption library photo_jpg 50 4 [] = (Ok r, t') /\
    r = Some (lit "a red square") /\
    current_caption (self (snd (_on_caption_generated posix r w))) =
    Some (lit "a red square").
Proof.
  cbv zeta.
  assert (Hdec : decodes library photo_jpg 50 4 (lit "a red square" ++ nl)).
  { apply (decodes_intro library photo_jpg 50 4
             (mkPicture photo_jpg (lit "RGB")) (mkPicture photo_jpg (lit "RGB"))
             photo_jpg [] (lit "a red square" ++ nl));
      [apply feeds_rgb|..]; reflexivity. }
  split; [exact Hdec|].
  destruct (caption_or_failure posix photo_jpg 50 4 [] (requested posix photo_jpg)
              (reportable_decodes library photo_jpg 50 4 _ Hdec))
    as (r & t' & Hrun & _ & _).
  exists r, t'. split; [exact Hrun|].
  apply (f_equal fst) in Hrun. vm_compute in Hrun. injection Hrun as <-.
  split; reflexivity.
Defined.

(** A file that does not exist and whose name is not ASCII, on a console
    that only takes ASCII: the line that reports the failure quotes the
    name, [print] raises, and so does [generate_caption]. *)
Lemma generate_caption_lets_print_failure_out_witness :
  Image_open ascii_library cafe_png = Raise (FileNotFoundError cafe_png) /\
  exists e' calls,
    exn_class e' = lit "UnicodeEncodeError" /\
    exn_str e' =
      lit "'ascii' codec can't encode character '\xe9' in position 67: ordinal not in range(128)" /\
    ImageCaptioner.generate_caption ascii_library cafe_png 50 4 [] =
    (Raise e',
     [] ++ calls ++ [CallPrint (error_text (FileNotFoundError cafe_png))]).
Proof.
  split; [reflexivity|].
  destruct (generate_caption_lets_print_failure_out ascii_library cafe_png 50 4 []
              (FileNotFoundError cafe_png)
              (UnicodeEncodeError (lit "ascii") 233 67 1
                 (lit "ordinal not in range(128)")))
    as [calls Hrun].
  - apply open_fails. reflexivity.
  - reflexivity.
  - exists (UnicodeEncodeError (lit "ascii") 233 67 1
              (lit "ordinal not in range(128)")), calls.
    split; [reflexivity|]. split; [reflexivity|exact Hrun].
Defined.

(** Read Aloud right after the model has loaded. *)
Lemma read_aloud_rejected_witness :
  current_caption (self (ready posix)) = None /\
  exists w',
    read_aloud posix (ready posix) = (Ok tt, w') /\
    self w' = self (ready posix) /\
    files w' = files (ready posix) /\
    console w' = console (ready posix) /\
    effects w' =
      effects (ready posix) ++ [ShowWarning (lit "No Caption")
                                  (lit "Please generate a caption first.")] /\
    ~ In (ThreadStart TaskSpeak)
         [ShowWarning (lit "No Caption") (lit "Please generate a caption first.")].
Proof.
  split; [reflexivity|].
  apply (read_aloud_rejected posix (ready posix)). reflexivity.
Defined.

(** Generate Caption at startup: no image, and the model still loading. *)
Lemma generate_caption_rejected_witness :
  current_image_path (self (startup posix [])) = None /\
  captioner (self (startup posix [])) = None /\
  exists w' title message,
    App.generate_caption posix (startup posix []) = (Ok tt, w') /\
    self w' = self (startup posix []) /\
    files w' = files (startup posix []) /\
    console w' = console (startup posix []) /\
    effects w' = effects (startup posix []) ++ [ShowWarning title message] /\
    (title = lit "No Image" \/ title = lit "Model Not Ready") /\
    ~ In (ThreadStart TaskGenerate) [ShowWarning title message].
Proof.
  split; [reflexivity|]. split; [reflexivity|].
  apply (generate_caption_rejected posix (startup posix [])). left. reflexivity.
Defined.

(** A file that is not an image, selected while a caption is shown. *)
Lemma load_image_failure_keeps_caption_witness :
  let w := captioned posix photo_jpg in
  let path := lit "notes.txt" in
  current_caption (self w) = Some (lit "a red square") /\
  exists w',
    _load_image posix path w = (Ok tt, w') /\
    self w' = set_current_image_path (Some path) (self w) /\
    current_image_path (self w') = Some path /\
    current_caption (self w') = current_caption (self w) /\
    read_btn (self w') = read_btn (self w) /\
    export_btn (self w') = export_btn (self w) /\
    generate_btn (self w') = generate_btn (self w) /\
    files w' = files w /\
    effects w' =
      effects w ++ [ShowError (lit "Error")
                      (lit "Failed to load image:" ++ nl ++
                       exn_str (FileNotFoundError path))].
Proof.
  cbv zeta. split; [reflexivity|].
  apply (load_image_failure_keeps_caption posix (lit "notes.txt")
           (captioned posix photo_jpg)
           (FileNotFoundError (lit "notes.txt"))
           (mkWorld (set_current_image_path (Some (lit "notes.txt"))
                       (self (captioned posix photo_jpg)))
                    (files (captioned posix photo_jpg))
                    (console (captioned posix photo_jpg))
                    (effects (captioned posix photo_jpg)))).
  reflexivity.
Defined.

(** A second image, selected while a caption is shown. *)
Lemma load_image_clears_caption_witness :
  let w := captioned posix photo_jpg in
  current_caption (self w) = Some (lit "a red square") /\
  exists w',
    _load_image posix scan_png w = (Ok tt, w') /\
    current_image_path (self w') = Some scan_png /\
    current_caption (self w') = None /\
    read_btn (self w') = DISABLED /\
    export_btn (self w') = DISABLED.
Proof.
  cbv zeta. split; [reflexivity|].
  destruct (load_image_clears_caption posix scan_png
              (captioned posix photo_jpg)
              (mkPicture scan_png (lit "L")) (mkPicture scan_png (lit "L"))
              (mkPicture scan_png (lit "L")) eq_refl eq_refl eq_refl)
    as (w' & H1 & H2 & H3 & H4 & H5 & _).
  exists w'. repeat split; assumption.
Defined.

(** A caption is generated on a machine with a speech engine. *)
Lemma caption_is_read_aloud_witness :
  let w := requested posix photo_jpg in
  let c := lit "a red square" in
  fst (generate posix w) = Ok (OnCaptionGenerated (Some c)) /\
  tts_engine (self w) <> None /\
  exists w',
    _on_caption_generated posix (Some c) w = (Ok tt, w') /\
    current_caption (self w') = Some c /\
    effects w' = effects w ++ [ThreadStart TaskSpeak] /\
    effects (snd (speak posix w')) = effects w' ++ [Say (Some c)].
Proof.
  cbv zeta.
  assert (H : tts_engine (self (requested posix photo_jpg)) <> None)
    by (intros H; vm_compute in H; discriminate H).
  split; [reflexivity|]. split; [exact H|].
  destruct (caption_is_read_aloud posix (lit "a red square")
              (requested posix photo_jpg) eq_refl)
    as (w' & Hrun & Hcap & _ & _ & _ & Hspeak & _).
  destruct (Hspeak H) as [Hstart Hsay].
  exists w'. repeat split; assumption.
Defined.

(** An export where the line separator is the line feed. *)
Lemma export_writes_caption_witness :
  let c := lit "a red square" in
  let w := captioned posix photo_jpg in
  let w' := snd (export_caption posix (lit "out.txt") w) in
  current_caption (self w) = Some c /\
  exported (lit "out.txt") w w' /\
  exists bytes,
    utf8_encode c = Ok bytes /\
    read_file (files w') (lit "out.txt") = Some bytes.
Proof.
  cbv zeta.
  assert (Hc : current_caption (self (captioned posix photo_jpg))
               = Some (lit "a red square")) by (reflexivity).
  assert (H : exported (lit "out.txt") (captioned posix photo_jpg)
                (snd (export_caption posix (lit "out.txt")
                        (captioned posix photo_jpg)))).
  { exists (lit "photo_caption.txt"). reflexivity. }
  split; [exact Hc|]. split; [exact H|].
  destruct (export_writes_caption posix (lit "out.txt")
              (captioned posix photo_jpg) H)
    as (c & bytes & Hc' & _ & _ & Hfile & _ & Hlf & _).
  exists bytes. split; [|exact Hfile].
  rewrite Hc in Hc'. injection Hc' as <-. apply Hlf. reflexivity.
Defined.

(* ===================================================================== *)
(** * Further properties of the captioner *)
(* ===================================================================== *)

Import CaptionerCalls.

(** ** What [strip] removes *)

Lemma lstrip_head (s : str) (c : N) (r : str) :
  lstrip s = c :: r -> isspace c = false.
Proof.
  induction s as [|x s IH]; cbn; [discriminate|].
  destruct (isspace x) eqn:E; [exact IH|].
  intros [= <- _]. exact E.
Qed.

Lemma lstrip_decompose (s : str) :
  exists pre, s = pre ++ lstrip s /\ forallb isspace pre = true.
Proof.
  induction s as [|x s (pre & Hs & Hpre)]; cbn.
  - exists []. split; reflexivity.
  - destruct (isspace x) eqn:E.
    + exists (x :: pre). cbn. rewrite E, Hpre. split; [now rewrite <- Hs|reflexivity].
    + exists []. split; reflexivity.
Qed.

(** [strip] takes blanks off both ends and nothing else. *)
Lemma strip_decompose (s : str) :
  exists pre post,
    s = pre ++ strip s ++ post /\
    forallb isspace pre = true /\ forallb isspace post = true.
Proof.
  destruct (lstrip_decompose s) as (pre & Hs & Hpre).
  destruct (lstrip_decompose (rev (lstrip s))) as (tail & Ht & Htail).
  exists pre, (rev tail). repeat split.
  - rewrite Hs at 1. f_equal. unfold strip, rstrip.
    rewrite <- rev_app_distr, <- Ht. now rewrite rev_involutive.
  - exact Hpre.
  - now rewrite forallb_reversed.
Qed.

Lemma strip_ends (s : str) :
  (forall c r, strip s = c :: r -> isspace c = false) /\
  (forall f c, strip s = f ++ [c] -> isspace c = false).
Proof.
  split.
  - intros c r H.
    destruct (lstrip_decompose (rev (lstrip s))) as (tail & Ht & _).
    apply (f_equal (@rev N)) in Ht.
    rewrite rev_involutive, rev_app_distr in Ht.
    fold (rstrip (lstrip s)) in Ht. fold (strip s) in Ht.
    rewrite H in Ht. cbn in Ht. now apply lstrip_head in Ht.
  - intros f c H. unfold strip, rstrip in H.
    apply (f_equal (@rev N)) in H.
    rewrite rev_involutive, rev_app_distr in H. cbn in H.
    now apply lstrip_head in H.
Qed.

Section CaptionerMore.

Variable L : Library.

Ltac unfold_captioner :=
  cbv [ImageCaptioner.generate_caption generate_caption_body
       generate_caption_handler try_except bind
       invoke ImageCaptioner.print modify lift ret first_row calls_of
       caption_of].

Ltac case_oracles :=
  repeat (match goal with
          | |- context [Image_open L ?p] => destruct (Image_open L p) eqn:?
          | |- context [str_eqb ?a ?b] => destruct (str_eqb a b) eqn:?
          | |- context [convert L ?i ?m] => destruct (convert L i m) eqn:?
          | |- context [processor L ?i] => destruct (processor L i) eqn:?
          | |- context [model_generate L ?i ?a ?b] =>
              destruct (model_generate L i a b) as [[|? ?]|] eqn:?
          | |- context [processor_decode L ?i] =>
              destruct (processor_decode L i) eqn:?
          | |- context [stdout_write L ?s] =>
              destruct (stdout_write L s) as [[]|] eqn:?
          end; cbv beta iota delta [negb fst snd]).

Ltac read_modes :=
  repeat match goal with
         | H : str_eqb _ _ = true |- _ => apply str_eqb_eq in H
         | H : str_eqb _ _ = false |- _ => apply str_eqb_neq in H
         end.

Create HintDb captioner_calls.
#[local] Hint Constructors feeds fails decodes : captioner_calls.

(** X1. A caption that [generate_caption] returns is the text the
    processor decoded with blanks taken off its two ends and nothing else
    changed: the decoded text is blanks, the caption, blanks, and the
    caption neither starts nor ends with a blank. *)
Theorem caption_is_trimmed_text (path : str) (ml nb : Z) (c : str) :
  caption_of L path ml nb = Some c ->
  exists text pre post,
    decodes L path ml nb text /\
    text = pre ++ c ++ post /\
    forallb isspace pre = true /\
    forallb isspace post = true /\
    (forall x r, c = x :: r -> isspace x = false) /\
    (forall f x, c = f ++ [x] -> isspace x = false).
Proof.
  intros Hc.
  destruct (caption_of_cases L path ml nb)
    as [(e & _ & Hnone)|(text & Htext & Hsome)]; [congruence|].
  rewrite Hsome in Hc. injection Hc as <-.
  destruct (strip_decompose text) as (pre & post & Heq & Hpre & Hpost).
  destruct (strip_ends text) as [Hfirst Hlast].
  exists text, pre, post. repeat split; assumption.
Qed.

(** X2. A run that gives a caption prints nothing.  A run that gives none
    hands exactly one line to [print], the last thing it does: "Error
    generating caption: " followed by the message of the exception that
    the failing step raised. *)
Theorem failure_is_printed_once (path : str) (ml nb : Z) :
  (forall c, caption_of L path ml nb = Some c ->
     occurrences L (is_print L) (calls_of L path ml nb) = 0) /\
  (caption_of L path ml nb = None ->
     exists e calls,
       fails L path ml nb e /\
       calls_of L path ml nb = calls ++ [error_line L e] /\
       occurrences L (is_print L) calls = 0).
Proof.
  unfold_captioner.
  case_oracles; read_modes; cbn [app]; split;
    try (intros c Hc; first [discriminate Hc | reflexivity]);
    try (intros Hc; discriminate Hc);
    intros _;
    match goal with
    | |- exists e calls, _ /\ ?l = _ /\ _ => eexists; exists (removelast l)
    end;
    (split; [solve [eauto 7 with captioner_calls]|]); split; reflexivity.
Qed.

(** X3. One run opens the file first and only once, converts, runs the
    processor, the model and the decoder at most once each, gives the
    model the caller's [max_length] and [num_beams], and decodes the first
    row of what the model returned; when the model returns no row at all,
    the caller gets no caption. *)
Theorem one_pass_first_row (path : str) (ml nb : Z) :
  (exists rest,
     calls_of L path ml nb = CallOpen path :: rest /\
     occurrences L (is_open L) rest = 0) /\
  occurrences L (is_convert L) (calls_of L path ml nb) <= 1 /\
  occurrences L (is_processor L) (calls_of L path ml nb) <= 1 /\
  occurrences L (is_generate L) (calls_of L path ml nb) <= 1 /\
  occurrences L (is_decode L) (calls_of L path ml nb) <= 1 /\
  (forall inputs a b,
     In (CallGenerate inputs a b) (calls_of L path ml nb) ->
     a = ml /\ b = nb) /\
  (forall ids,
     In (CallDecode ids) (calls_of L path ml nb) ->
     exists img inputs rest,
       feeds L path img /\
       processor L img = Ok inputs /\
       model_generate L inputs ml nb = Ok (ids :: rest)) /\
  (forall img inputs,
     feeds L path img ->
     processor L img = Ok inputs ->
     model_generate L inputs ml nb = Ok [] ->
     caption_of L path ml nb = None).
Proof.
  repeat match goal with |- _ /\ _ => split end;
    try (intros img inputs Hfed Hproc Hgen;
         apply (fails_gives_none L path ml nb (empty_output_error L));
         now apply no_row with (img := img) (inputs := inputs));
    unfold_captioner; case_oracles; read_modes; cbn [app];
    try (eexists; split; reflexivity);
    try (cbv [occurrences is_convert is_processor is_generate is_decode
              filter List.length]; lia);
    cbn [In]; intros;
    repeat match goal with
           | H : _ \/ _ |- _ => destruct H as [H|H]
           | H : False |- _ => contradiction
           | H : _ = _ |- _ => first [discriminate H | injection H as <-]
           end;
    subst; eauto 8 with captioner_calls.
Qed.

(** One run opens its own path, and no other. *)
Lemma opens_own_path (path : str) (ml nb : Z) :
  filter (is_open L) (calls_of L path ml nb) = [CallOpen path].
Proof.
  unfold_captioner. case_oracles; reflexivity.
Qed.

(** A run that raises was ended by its [print]. *)
Lemma raise_comes_from_print (path : str) (ml nb : Z) (e : exn) :
  outcome_of L path ml nb = Raise e ->
  exists before line,
    calls_of L path ml nb = before ++ [CallPrint line] /\
    stdout_write L line = Raise e.
Proof.
  intros Hout.
  destruct (outcome_of_cases L path ml nb) as [(text & _ & Hok)|(e0 & He0 & Hend)];
    [congruence|].
  destruct (fails_calls L path ml nb e0 He0) as [before Hcalls].
  exists before, (error_text e0). split; [exact Hcalls|].
  rewrite Hend in Hout.
  destruct (stdout_write L (error_text e0)); congruence.
Qed.

(** The loop of the batch, as one execution: it opens the paths in
    order, and stops where a run raises. *)
Lemma batch_loop_opens (paths : list str) (ml nb : Z) :
  forall captions t,
  exists r new k,
    batch_loop L paths ml nb captions t = (r, t ++ new) /\
    k <= List.length paths /\
    filter (is_open L) new = map (@CallOpen L) (firstn k paths) /\
    (forall inputs a b, In (CallGenerate inputs a b) new -> a = ml /\ b = nb) /\
    (forall cs, r = Ok cs ->
       k = List.length paths /\
       List.length cs = List.length captions + List.length paths) /\
    (forall e, r = Raise e ->
       0 < k /\
       exists before line,
         new = before ++ [CallPrint line] /\ stdout_write L line = Raise e).
Proof.
  induction paths as [|p paths IH]; intros captions t; cbn [batch_loop].
  - exists (Ok captions), [], 0. rewrite app_nil_r.
    split; [reflexivity|]. split; [reflexivity|]. split; [reflexivity|].
    split; [intros ? ? ? []|]. split.
    + intros cs [= <-]. cbn. split; [reflexivity|lia].
    + intros e [=].
  - unfold bind at 1. rewrite generate_caption_shift.
    fold (outcome_of L p ml nb). fold (calls_of L p ml nb).
    pose proof (opens_own_path p ml nb) as Hopen.
    assert (Hparams : forall inputs a b,
               In (CallGenerate inputs a b) (calls_of L p ml nb) ->
               a = ml /\ b = nb).
    { intros inputs a b Hin.
      apply model_call_follows_processor in Hin as (-> & -> & _). now split. }
    destruct (outcome_of L p ml nb) as [c|e] eqn:Hout.
    + destruct (IH (captions ++ [caption_or_sentinel c]) (t ++ calls_of L p ml nb))
        as (r & new & k & Hrun & Hk & Hopens & Hgen & Hok & Hraise).
      exists r, (calls_of L p ml nb ++ new), (S k).
      split; [now rewrite Hrun, app_assoc|].
      split; [cbn; lia|].
      split; [rewrite filter_app, Hopen, Hopens; reflexivity|].
      split; [intros inputs a b Hin; apply in_app_or in Hin as [Hin|Hin]; eauto|].
      split.
      * intros cs Hcs. destruct (Hok cs Hcs) as [-> Hlen].
        split; [reflexivity|]. rewrite Hlen, length_app. cbn. lia.
      * intros e He. destruct (Hraise e He) as (_ & before & line & -> & Hw).
        split; [lia|]. exists (calls_of L p ml nb ++ before), line.
        split; [now rewrite app_assoc|exact Hw].
    + exists (Raise e), (calls_of L p ml nb), 1.
      split; [reflexivity|]. split; [cbn; lia|].
      split; [exact Hopen|]. split; [exact Hparams|]. split.
      * intros cs [=].
      * intros e' [= <-]. split; [lia|]. now apply raise_comes_from_print.
Qed.

(** X4. [batch_generate_captions] captions the paths once each, in the
    order of the list and with the batch's own [max_length] and
    [num_beams]: the files it opens are the first [k] paths of the list,
    in order.  When it returns, these are all the paths and the result has
    one entry per path.  It raises only when the [print] of a run raises,
    and then stops at that run: the refused line is the last thing it
    asked for.  The empty batch returns the empty list and calls
    nothing. *)
Theorem batch_is_one_run_per_path (paths : list str) (ml nb : Z) (t : trace L) :
  exists r new k,
    batch_generate_captions L paths ml nb t = (r, t ++ new) /\
    k <= List.length paths /\
    filter (is_open L) new = map (@CallOpen L) (firstn k paths) /\
    (forall inputs a b, In (CallGenerate inputs a b) new -> a = ml /\ b = nb) /\
    (forall captions, r = Ok captions ->
       k = List.length paths /\
       List.length captions = List.length paths) /\
    (forall e, r = Raise e ->
       0 < k /\
       exists before line,
         new = before ++ [CallPrint line] /\ stdout_write L line = Raise e) /\
    (paths = [] -> r = Ok [] /\ new = []).
Proof.
  unfold batch_generate_captions.
  destruct (batch_loop_opens paths ml nb [] t)
    as (r & new & k & Hrun & Hk & Hopens & Hgen & Hok & Hraise).
  exists r, new, k.
  split; [exact Hrun|]. split; [exact Hk|]. split; [exact Hopens|].
  split; [exact Hgen|]. split; [|split; [exact Hraise|]].
  - intros cs Hcs. destruct (Hok cs Hcs) as [-> Hlen].
    split; [reflexivity|exact Hlen].
  - intros ->. cbn [batch_loop] in Hrun. unfold ret in Hrun.
    injection Hrun as <- Ht. split; [reflexivity|].
    apply (app_inv_head t). now rewrite app_nil_r.
Qed.

End CaptionerMore.

(** ** The constructor *)

Section LoadingFacts.

Import Loading.

Variable H : Hub.

Ltac run_loader :=
  cbv [__init__ _load_model _load_model_body try_except bind ret get modify
       lift raise ask Loading.print set_processor set_model
       this stdout requests model_name device model processor fst snd].

(** One step of the constructor: a line is printed, the hub or torch is
    asked. *)
Ltac next_step :=
  match goal with
  | |- context [match console_write H ?l with _ => _ end] =>
      destruct (console_write H l) as [[]|?] eqn:?
  | |- context [match BlipProcessor_from_pretrained H ?n with _ => _ end] =>
      destruct (BlipProcessor_from_pretrained H n) eqn:?
  | |- context [match BlipForConditionalGeneration_from_pretrained H ?n with _ => _ end] =>
      destruct (BlipForConditionalGeneration_from_pretrained H n) eqn:?
  | |- context [match model_to H ?m ?d with _ => _ end] =>
      destruct (model_to H m d) as [[]|?] eqn:?
  | |- context [match model_eval H ?m with _ => _ end] =>
      destruct (model_eval H m) as [[]|?] eqn:?
  end; cbv beta iota.

(** The constructor returned: every line was taken. *)
Ltac returned :=
  split; [reflexivity|]; split; [reflexivity|];
  split; [do 2 eexists; repeat split; eassumption|];
  split; [reflexivity|];
  rewrite <- !app_assoc; cbn [app];
  split;
  [ match goal with
    | |- exists before, ?out ++ ?l = _ => exists (removelast l); reflexivity
    end
  | let Hin := fresh "Hin" in
    intros ? Hin;
    rewrite skipn_app, skipn_all, Nat.sub_diag in Hin; cbn [skipn app In] in Hin;
    repeat (destruct Hin as [<-|Hin]; [assumption|]); contradiction ].

(** The constructor raised: what failed, what was printed and asked
    before, and what the caller gets. *)
Ltac raised :=
  match goal with
  | Hlast : console_write H (lit "ERROR DETAILS:" ++ nl ++ format_exc H ?e) = _
    |- _ =>
      exists e;
      rewrite <- ?app_assoc; cbn [app];
      match goal with
      | |- exists before, ?out ++ ?l = _ /\ _ => exists (removelast l)
      end;
      cbn [removelast];
      split; [reflexivity|];
      split;
      [ first
          [ left; reflexivity
          | right; left; reflexivity
          | right; right; left; eexists; split; [reflexivity|];
            first [left; assumption | right; assumption]
          | right; right; right;
            match goal with
            | Hw : console_write H ?line = Raise e
              |- exists earlier line', ?before = _ /\ _ =>
                exists (removelast before), line; split; [reflexivity|exact Hw]
            end ]
      | split; [rewrite Hlast; reflexivity|];
        split;
        [ first [ exists 0; reflexivity | exists 1; reflexivity
                | exists 2; reflexivity | exists 3; reflexivity
                | exists 4; reflexivity ]
        | let He := fresh "He" in
          let Hin := fresh "Hin" in
          intros ? He;
          first [ discriminate He
                | cbn [app In]; intros Hin;
                  repeat (destruct Hin as [Hin|Hin]; try discriminate Hin);
                  contradiction ] ] ]
  end.

(** X6. [ImageCaptioner(name)] is all or nothing.  When it returns, the
    object has the given name, the device ("cuda" exactly when torch
    reports it available), the processor and the model, both loaded under
    that name, and the model was moved to the device and put in
    evaluation mode, in this order.  It raises when one of these four
    steps raises, and also when the console refuses one of the lines the
    [try] block prints.  It then prints the traceback as its last line
    and, if the console takes that line, raises a [RuntimeError] whose
    message is "Failed to load model: ", the failure's message and the
    traceback; if the console refuses that line too, the exception of
    [print] is what the caller gets.  The requests stop where the failure
    is: if it is the processor that fails, the model is never asked
    for. *)
Theorem constructor_all_or_nothing (name : str) (out : list str) :
  match __init__ H name out with
  | (Ok c, lines, reqs) =>
      model_name c = name /\
      device c = (if cuda_is_available H then lit "cuda" else lit "cpu") /\
      (exists p m,
         BlipProcessor_from_pretrained H name = Ok p /\
         BlipForConditionalGeneration_from_pretrained H name = Ok m /\
         processor c = Some p /\ model c = Some m /\
         model_to H m (device c) = Ok tt /\ model_eval H m = Ok tt) /\
      reqs = [LoadProcessor name; LoadModel name; MoveTo (device c); SetEval] /\
      (exists before, lines = out ++ before ++ [rule]) /\
      (forall line, In line (skipn (List.length out) lines) ->
                    console_write H line = Ok tt)
  | (Raise e, lines, reqs) =>
      exists e0 before,
        lines = out ++ before ++
                [lit "ERROR DETAILS:" ++ nl ++ format_exc H e0] /\
        (BlipProcessor_from_pretrained H name = Raise e0 \/
         BlipForConditionalGeneration_from_pretrained H name = Raise e0 \/
         (exists m, BlipForConditionalGeneration_from_pretrained H name = Ok m /\
                    (model_to H m (if cuda_is_available H
                                   then lit "cuda" else lit "cpu") = Raise e0 \/
                     model_eval H m = Raise e0)) \/
         (exists earlier line,
            before = earlier ++ [line] /\ console_write H line = Raise e0)) /\
        match console_write H (lit "ERROR DETAILS:" ++ nl ++ format_exc H e0) with
        | Ok _ =>
            e = RuntimeError
                  (lit "Failed to load model: " ++ exn_str e0 ++ nl ++ nl ++
                   lit "Full traceback:" ++ nl ++ format_exc H e0)
        | Raise e1 => e = e1
        end /\
        (exists k,
           reqs = firstn k [LoadProcessor name; LoadModel name;
                            MoveTo (if cuda_is_available H
                                    then lit "cuda" else lit "cpu");
                            SetEval]) /\
        (forall e1, BlipProcessor_from_pretrained H name = Raise e1 ->
                    ~ In (LoadModel name) reqs)
  end.
Proof.
  run_loader. repeat next_step.
  all: first [ returned | raised ].
Qed.

End LoadingFacts.

(* ===================================================================== *)
(** * Further properties of the application *)
(* ===================================================================== *)

(** ** Braces around a dropped path *)

Lemma lstrip_chars_skips (chars b s : str) :
  forallb (in_chars chars) b = true ->
  lstrip_chars chars (b ++ s) = lstrip_chars chars s.
Proof.
  induction b as [|x b IH]; cbn; [reflexivity|].
  intros Hb. apply andb_true_iff in Hb as [Hx Hb].
  rewrite Hx. now apply IH.
Qed.

Lemma lstrip_chars_all (chars b : str) :
  forallb (in_chars chars) b = true -> lstrip_chars chars b = [].
Proof.
  intros Hb. rewrite <- (app_nil_r b). now rewrite lstrip_chars_skips.
Qed.

Lemma lstrip_chars_keeps_tail (chars s b : str) :
  lstrip_chars chars s <> [] ->
  lstrip_chars chars (s ++ b) = lstrip_chars chars s ++ b.
Proof.
  induction s as [|x s IH]; cbn; [congruence|].
  destruct (in_chars chars x); [exact IH|reflexivity].
Qed.

Lemma lstrip_chars_blank (chars s : str) :
  lstrip_chars chars s = [] -> forallb (in_chars chars) s = true.
Proof.
  induction s as [|x s IH]; cbn; [reflexivity|].
  destruct (in_chars chars x); [exact IH|discriminate].
Qed.

(** Characters of [chars] put around a text do not change what
    [strip(chars)] makes of it. *)
Lemma strip_chars_wrapped (chars b1 s b2 : str) :
  forallb (in_chars chars) b1 = true ->
  forallb (in_chars chars) b2 = true ->
  strip_chars chars (b1 ++ s ++ b2) = strip_chars chars s.
Proof.
  intros H1 H2. unfold strip_chars. rewrite lstrip_chars_skips by exact H1.
  destruct (lstrip_chars chars s) as [|x r] eqn:Hs.
  - apply lstrip_chars_blank in Hs.
    rewrite (lstrip_chars_all chars (s ++ b2)); [reflexivity|].
    rewrite forallb_app, Hs, H2. reflexivity.
  - rewrite lstrip_chars_keeps_tail by (rewrite Hs; discriminate).
    rewrite Hs, rev_app_distr.
    rewrite lstrip_chars_skips by now rewrite forallb_reversed.
    reflexivity.
Qed.

Section ApplicationMore.

Variable P : Platform.

Ltac run_ui :=
  cbv [handle run_callback select_image _on_drop _load_image _load_image_body
       read_aloud speak App.generate_caption _on_caption_generated
       _on_caption_error _on_model_loaded _on_model_error export_caption
       export_body close_file toggle_high_contrast refused as_str load
       startup init _init_tts _load_model_async created read_e getattr
       bind ret raise get_self update emit modify lift try_except store_file
       set_current_image_path set_current_caption set_captioner set_tts_engine
       set_high_contrast_mode set_status_label set_image_label set_caption_text
       set_caption_text_state set_caption_text_colors set_color_scheme
       set_generate_btn set_read_btn set_export_btn set_progress
       self files console effects
       current_image_path current_caption captioner tts_engine
       high_contrast_mode status_label image_label_image image_label_text
       caption_text caption_text_state caption_text_colors color_scheme
       generate_btn read_btn export_btn progress fst snd negb].

Ltac project_all :=
  cbn [self files console effects
       current_image_path current_caption captioner tts_engine
       high_contrast_mode status_label image_label_image image_label_text
       caption_text caption_text_state caption_text_colors color_scheme
       generate_btn read_btn export_btn progress fst snd] in *.

Ltac open_world w :=
  let a := fresh "app" in
  destruct w as [a ? ? ?]; destruct a; project_all.

Ltac case_ui :=
  repeat (match goal with
          | |- context [Image_open (vision P) ?p] =>
              destruct (Image_open (vision P) p) eqn:?
          | |- context [thumbnail P ?i] => destruct (thumbnail P i) eqn:?
          | |- context [PhotoImage P ?i] => destruct (PhotoImage P i) eqn:?
          | |- context [isfile P ?p] => destruct (isfile P p) eqn:?
          | |- context [open_w P ?p] => destruct (open_w P p) as [[]|] eqn:?
          | |- context [text_file_bytes ?a ?b] =>
              destruct (text_file_bytes a b) eqn:?
          | |- context [flush_close P ?p ?b] =>
              destruct (flush_close P p b) as [[]|] eqn:?
          | |- context [say_and_wait P ?x] =>
              destruct (say_and_wait P x) as [[]|] eqn:?
          | |- context [truthy_obj ?x] => destruct (truthy_obj x) eqn:?
          | |- context [truthy_opt ?x] => destruct (truthy_opt x) eqn:?
          | |- context [truthy ?x] => destruct (truthy x) eqn:?
          | |- context [if ?b then _ else _] => destruct b eqn:?
          | |- context [match ?x with Some _ => _ | None => _ end] =>
              destruct x eqn:?
          end; run_ui).

(** X7. [toggle_high_contrast] only restyles: it flips the mode, sets the
    colour scheme, the colours of the caption box and the status line to
    those of the new mode, and changes nothing else of the application,
    no file and no effect.  Toggling twice gives the first mode back. *)
Theorem toggle_only_restyles (w : World P) :
  exists w' w'',
    toggle_high_contrast P w = (Ok tt, w') /\
    toggle_high_contrast P w' = (Ok tt, w'') /\
    self w' =
      (if high_contrast_mode (self w)
       then set_caption_text_colors (Some (lit "#FFFFFF", lit "#000000"))
              (set_color_scheme normal_colors
                 (set_status_label (lit "Normal mode enabled")
                    (set_high_contrast_mode false (self w))))
       else set_caption_text_colors (Some (lit "#000000", lit "#FFFF00"))
              (set_color_scheme high_contrast_colors
                 (set_status_label (lit "High contrast mode enabled")
                    (set_high_contrast_mode true (self w))))) /\
    files w' = files w /\ console w' = console w /\ effects w' = effects w /\
    high_contrast_mode (self w'') = high_contrast_mode (self w) /\
    current_caption (self w'') = current_caption (self w) /\
    current_image_path (self w'') = current_image_path (self w) /\
    (color_scheme (self w'') = high_contrast_colors <->
     high_contrast_mode (self w'') = true).
Proof.
  open_world w.
  repeat match goal with b : bool |- _ => destruct b end;
    run_ui; do 2 eexists; (split; [reflexivity|]); run_ui;
    (split; [reflexivity|]); do 7 (split; [reflexivity|]);
    split; intros E; first [reflexivity | discriminate E].
Qed.

(** X8. A cancelled dialog changes nothing.  [select_image] with no file
    chosen leaves the application and the files as they were; so does
    [export_caption] with no file chosen, whether it has a caption to
    export or not: each adds one effect, the dialog or the warning. *)
Theorem cancelled_dialogs_change_nothing (w : World P) :
  select_image P [] w =
    (Ok tt, mkWorld (self w) (files w) (console w) (effects w ++ [AskOpenFilename])) /\
  exists shown,
    export_caption P [] w =
      (Ok tt, mkWorld (self w) (files w) (console w) (effects w ++ [shown])) /\
    (truthy_opt (current_caption (self w)) = false ->
     shown = ShowWarning (lit "No Caption") (lit "Please generate a caption first.")) /\
    (truthy_opt (current_caption (self w)) = true ->
     exists name, shown = AskSaveAsFilename name).
Proof.
  open_world w. split; [reflexivity|]. run_ui.
  match goal with
  | |- context [truthy_opt ?x] => destruct (truthy_opt x)
  end; run_ui; eexists; (split; [reflexivity|]);
    split; intros [=]; eauto.
Qed.

(** X9. Tk wraps a dropped path that contains blanks in braces;
    [_on_drop] takes them off, so a path dropped in braces is handled as
    the path itself: loaded when it names a file, and otherwise ignored
    without any effect. *)
Theorem drop_unwraps_braces (path : str) (w : World P) :
  _on_drop P (lit "{" ++ path ++ lit "}") w = _on_drop P path w /\
  (isfile P (strip_chars (lit "{}") path) = false ->
   _on_drop P (lit "{" ++ path ++ lit "}") w = (Ok tt, w)) /\
  (strip_chars (lit "{}") path = path -> isfile P path = true ->
   _on_drop P (lit "{" ++ path ++ lit "}") w = _load_image P path w).
Proof.
  assert (E : strip_chars (lit "{}") (lit "{" ++ path ++ lit "}")
              = strip_chars (lit "{}") path)
    by (apply strip_chars_wrapped; reflexivity).
  unfold _on_drop. rewrite E. split; [reflexivity|]. split.
  - intros ->. reflexivity.
  - intros -> ->. reflexivity.
Qed.

(** X10. With an image selected and the model loaded, [generate_caption]
    is accepted whatever the state of the Generate button and of the
    progress bar: it disables the button, starts the progress bar, sets
    the status line and starts one caption worker, and changes nothing
    else.  Asked again before the worker has answered (the keyboard
    shortcut does not look at the button), it starts a second worker. *)
Theorem generate_caption_starts_worker (w : World P) :
  truthy_opt (current_image_path (self w)) = true ->
  captioner (self w) <> None ->
  exists w' w'',
    App.generate_caption P w = (Ok tt, w') /\
    self w' =
      set_status_label (lit "Generating caption...")
        (set_progress true (set_generate_btn DISABLED (self w))) /\
    files w' = files w /\
    console w' = console w /\
    effects w' = effects w ++ [ThreadStart TaskGenerate] /\
    App.generate_caption P w' = (Ok tt, w'') /\
    self w'' = self w' /\
    effects w'' = effects w ++ [ThreadStart TaskGenerate; ThreadStart TaskGenerate].
Proof.
  intros Himg Hcap. open_world w.
  match goal with
  | H : ?c <> None |- _ => destruct c as [[]|]; [clear H|congruence]
  end.
  run_ui. rewrite Himg. cbn [truthy_obj]. run_ui.
  do 2 eexists. split; [reflexivity|]. run_ui.
  rewrite Himg. cbn [truthy_obj]. run_ui.
  repeat (split; [reflexivity|]). now rewrite <- app_assoc.
Qed.

(** X11. Every run of [_on_caption_generated] stops the progress bar and
    enables the Generate button again.  A completion without a caption
    ([None] or the empty string) is handled as the error "Failed to
    generate caption", and an error only sets the status line and shows
    one error box: the caption of the session, the caption box and the
    Read Aloud and Export buttons stay as they were. *)
Theorem completion_reenables_generate (w : World P) :
  (forall caption,
     generate_btn (self (snd (_on_caption_generated P caption w))) = NORMAL /\
     progress (self (snd (_on_caption_generated P caption w))) = false) /\
  (forall caption, truthy_opt caption = false ->
     _on_caption_generated P caption w =
     _on_caption_error P (lit "Failed to generate caption") w) /\
  (forall error_msg,
     _on_caption_error P error_msg w =
     (Ok tt,
      mkWorld
        (set_status_label (mark_failed ++ lit " Caption generation failed")
           (set_generate_btn NORMAL (set_progress false (self w))))
        (files w) (console w)
        (effects w ++ [ShowError (lit "Error")
                         (lit "Caption generation failed:" ++ nl ++ error_msg)]))).
Proof.
  open_world w. split; [|split].
  - intros caption. run_ui.
    destruct (truthy_opt caption) eqn:Hc; run_ui.
    + destruct caption as [c|]; [|discriminate Hc]. run_ui.
      match goal with
      | |- context [truthy_obj ?x] => destruct (truthy_obj x)
      end; run_ui; split; reflexivity.
    + split; reflexivity.
  - intros caption Hc. run_ui. rewrite Hc. reflexivity.
  - intros error_msg. reflexivity.
Qed.

(** X12. With a caption in the session and the speech engine initialised,
    [read_aloud] is accepted whatever the state of the Read Aloud button:
    it starts one [speak] worker and sets the status line, and changes
    nothing else.  Asked again while the first worker may still be
    speaking, it starts another one. *)
Theorem read_aloud_starts_worker (w : World P) :
  truthy_opt (current_caption (self w)) = true ->
  tts_engine (self w) <> None ->
  exists w' w'',
    read_aloud P w = (Ok tt, w') /\
    self w' =
      set_status_label (mark_speaker ++ lit " Reading caption aloud...") (self w) /\
    files w' = files w /\
    console w' = console w /\
    effects w' = effects w ++ [ThreadStart TaskSpeak] /\
    read_aloud P w' = (Ok tt, w'') /\
    self w'' = self w' /\
    effects w'' = effects w ++ [ThreadStart TaskSpeak; ThreadStart TaskSpeak].
Proof.
  intros Hcap Htts. open_world w.
  match goal with
  | H : ?c <> None |- _ => destruct c as [[]|]; [clear H|congruence]
  end.
  run_ui. rewrite Hcap. cbn [truthy_obj]. run_ui.
  do 2 eexists. split; [reflexivity|]. run_ui.
  rewrite Hcap. cbn [truthy_obj]. run_ui.
  repeat (split; [reflexivity|]). now rewrite <- app_assoc.
Qed.

(** X13. The worker [speak] hands the engine whatever the session's
    caption is when the worker runs, never raises and changes nothing of
    the application.  When the engine succeeds it posts nothing.  When
    the engine fails it posts the lambda of its [except] clause, and the
    failure is lost: delivered by the event loop, after the clause has
    ended, the lambda finds [e] unbound and raises before it shows
    anything, so no error box appears and nothing changes.  The box
    "Failed to read aloud:" with the engine's message is what the lambda
    shows if it runs while [e] is still bound. *)
Theorem speak_failure_is_lost (w : World P) :
  exists posted_cb w',
    speak P w = (Ok posted_cb, w') /\
    self w' = self w /\ files w' = files w /\ console w' = console w /\
    (tts_engine (self w) <> None ->
     effects w' = effects w ++ [Say (current_caption (self w))] /\
     (say_and_wait P (current_caption (self w)) = Ok tt -> posted_cb = None) /\
     (forall e, say_and_wait P (current_caption (self w)) = Raise e ->
        posted_cb = Some (OnSpeakError None))) /\
    run_callback P (OnSpeakError None) w' =
      (Raise (unbound_variable_error P), w') /\
    (forall e,
       run_callback P (OnSpeakError (Some e)) w' =
       (Ok tt,
        mkWorld (self w') (files w') (console w')
          (effects w' ++ [ShowError (lit "TTS Error")
                            (lit "Failed to read aloud:" ++ nl ++ exn_str e)]))).
Proof.
  open_world w.
  match goal with
  | |- context [?engine <> None] => destruct engine as [[]|]
  end; run_ui;
    try match goal with
        | |- context [say_and_wait P ?x] => destruct (say_and_wait P x) as [[]|e0]
        end; run_ui; do 2 eexists; (split; [reflexivity|]); run_ui;
    do 3 (split; [reflexivity|]);
    (split; [|split; [reflexivity|intros e; reflexivity]]);
    intros Hengine; try congruence;
    (split; [reflexivity|]); split;
    first [reflexivity | intros E; discriminate E
          | intros e E; first [discriminate E | reflexivity]].
Qed.

(** [read_file] after a write to another path. *)
Lemma read_file_other (fs : file_system) (chosen p : str) (bytes : list byte) :
  p <> chosen ->
  read_file ((chosen, bytes) :: fs) p = read_file fs p.
Proof.
  intros Hp. cbn. destruct (str_eqb chosen p) eqn:E; [|reflexivity].
  apply str_eqb_eq in E. congruence.
Qed.

(** X14. [export_caption] never raises, and whatever happens it leaves
    every file but the chosen one as it was and changes nothing of the
    application except, when the export is confirmed, the status line:
    the session keeps its image and its caption. *)
Theorem export_touches_only_chosen_file (chosen : str) (w : World P) :
  exists w',
    export_caption P chosen w = (Ok tt, w') /\
    (forall p, p <> chosen -> read_file (files w') p = read_file (files w) p) /\
    console w' = console w /\
    self w' = set_status_label (status_label (self w')) (self w) /\
    (status_label (self w') <> status_label (self w) ->
     exported chosen w w').
Proof.
  unfold exported. open_world w. run_ui. case_ui;
    eexists; (split; [reflexivity|]); run_ui;
    (split; [intros p Hp; rewrite ?read_file_other by exact Hp; reflexivity|]);
    (split; [reflexivity|]); (split; [reflexivity|]);
    intros Hstatus; try congruence;
    eexists; rewrite <- app_assoc; reflexivity.
Qed.

(** A caption that holds a surrogate cannot be encoded. *)
Lemma surrogate_is_not_encoded (x : N) (s : str) :
  In x s -> (55296 <= x <= 57343)%N ->
  exists e, utf8_encode s = Raise e.
Proof.
  intros Hin Hx. unfold utf8_encode. generalize 0 as pos.
  induction s as [|y s IH]; intros pos; cbn [In encode_from] in *;
    [contradiction|].
  destruct Hin as [->|Hin].
  - assert (Hnone : utf8_char x = None).
    { unfold utf8_char.
      destruct (N.ltb_spec x 128); [lia|].
      destruct (N.ltb_spec x 2048); [lia|].
      destruct (N.ltb_spec x 65536); [|lia].
      destruct (N.leb_spec 55296 x); [|lia].
      destruct (N.leb_spec x 57343); [reflexivity|lia]. }
    rewrite Hnone. eauto.
  - destruct (utf8_char y); [|eauto].
    destruct (IH Hin (S pos)) as [e ->]. eauto.
Qed.

(** X15. A failed export is reported.  When the file cannot be opened,
    nothing is written: the files are as they were.  When the file was
    opened and the caption cannot be encoded (it holds a surrogate), the
    file is left empty.  When the encoded text cannot be flushed to the
    file, the file holds what the system took of it.  In all three cases
    the application is unchanged, the status line too, and the error box
    "Failed to export caption:" carries the exception's message. *)
Theorem failed_export_is_reported (chosen c : str) (w : World P) :
  current_caption (self w) = Some c ->
  truthy c = true ->
  truthy chosen = true ->
  (forall e, open_w P chosen = Raise e ->
     exists name,
       export_caption P chosen w =
       (Ok tt,
        mkWorld (self w) (files w) (console w)
          (effects w ++ [AskSaveAsFilename name;
                         ShowError (lit "Export Error")
                           (lit "Failed to export caption:" ++ nl ++ exn_str e)]))) /\
  (forall e, open_w P chosen = Ok tt ->
     text_file_bytes (linesep P) c = Raise e ->
     exists name,
       export_caption P chosen w =
       (Ok tt,
        mkWorld (self w) ((chosen, []) :: files w) (console w)
          (effects w ++ [AskSaveAsFilename name;
                         ShowError (lit "Export Error")
                           (lit "Failed to export caption:" ++ nl ++ exn_str e)]))) /\
  (forall bytes e, open_w P chosen = Ok tt ->
     text_file_bytes (linesep P) c = Ok bytes ->
     flush_close P chosen bytes = Raise e ->
     exists name,
       export_caption P chosen w =
       (Ok tt,
        mkWorld (self w)
          ((chosen, flushed P chosen bytes) :: (chosen, []) :: files w)
          (console w)
          (effects w ++ [AskSaveAsFilename name;
                         ShowError (lit "Export Error")
                           (lit "Failed to export caption:" ++ nl ++ exn_str e)]))) /\
  (forall x, In x c -> (55296 <= x <= 57343)%N ->
     exists e, text_file_bytes (linesep P) c = Raise e).
Proof.
  intros Hcap Hc Hchosen. open_world w. subst. split; [|split; [|split]].
  - intros e Hopen. run_ui. cbn [truthy_opt]. rewrite Hc. run_ui.
    rewrite Hchosen. run_ui. rewrite Hopen. run_ui.
    eexists. rewrite <- app_assoc. reflexivity.
  - intros e Hopen Hbytes. run_ui. cbn [truthy_opt]. rewrite Hc. run_ui.
    rewrite Hchosen. run_ui. rewrite Hopen. run_ui. rewrite Hbytes. run_ui.
    eexists. rewrite <- app_assoc. reflexivity.
  - intros bytes e Hopen Hbytes Hflush. run_ui. cbn [truthy_opt]. rewrite Hc. run_ui.
    rewrite Hchosen. run_ui. rewrite Hopen. run_ui. rewrite Hbytes. run_ui.
    rewrite Hflush. run_ui.
    eexists. rewrite <- app_assoc. reflexivity.
  - intros x Hin Hx. unfold text_file_bytes.
    apply surrogate_is_not_encoded with (x := x); [|exact Hx].
    unfold translate_newlines. apply in_flat_map. exists x. split; [exact Hin|].
    destruct (N.eqb_spec x LF) as [->|_]; [unfold LF in Hx; lia|now left].
Qed.

(** What no handler touches: the captioner, the speech engine, the
    console of the captioner, and every file but the one of an export. *)
Lemma handle_frame (ev : event) (w : World P) :
  captioner (self (snd (handle P ev w))) = captioner (self w) /\
  tts_engine (self (snd (handle P ev w))) = tts_engine (self w) /\
  console (snd (handle P ev w)) = console w /\
  (forall p, (forall chosen, ev = ExportCaption chosen -> chosen <> p) ->
             read_file (files (snd (handle P ev w))) p = read_file (files w) p).
Proof.
  open_world w.
  destruct ev as [chosen|data| | |chosen| |[|[e|]|caption|[e|]|[e|]]];
    run_ui; case_ui; repeat split;
    intros p Hp; try reflexivity;
    specialize (Hp chosen eq_refl);
    rewrite ?read_file_other by congruence; reflexivity.
Qed.

Lemma generate_without_model (w : World P) :
  captioner (self w) = None ->
  exists title message,
    App.generate_caption P w =
    (Ok tt,
     mkWorld (self w) (files w) (console w)
       (effects w ++ [ShowWarning title message])).
Proof.
  intros Hcap. open_world w. subst. run_ui.
  match goal with
  | |- context [truthy_opt ?x] => destruct (truthy_opt x)
  end; run_ui; do 2 eexists; reflexivity.
Qed.

(** X16. Whatever the event loop delivers, commands and callbacks alike,
    the handlers never replace the captioner or the speech engine, never
    call the captioner, and write to no file but those chosen in an
    export.  So while the model is missing (it is still loading, or its
    load has failed) every Generate Caption is refused with a warning. *)
Theorem handlers_keep_engines_and_files (evs : list event) (w : World P) :
  captioner (self (deliver P evs w)) = captioner (self w) /\
  tts_engine (self (deliver P evs w)) = tts_engine (self w) /\
  console (deliver P evs w) = console w /\
  (forall p, (forall chosen, In (ExportCaption chosen) evs -> chosen <> p) ->
             read_file (files (deliver P evs w)) p = read_file (files w) p) /\
  (captioner (self w) = None ->
   exists title message,
     App.generate_caption P (deliver P evs w) =
     (Ok tt,
      mkWorld (self (deliver P evs w)) (files (deliver P evs w))
        (console (deliver P evs w))
        (effects (deliver P evs w) ++ [ShowWarning title message]))).
Proof.
  assert (Hframe : captioner (self (deliver P evs w)) = captioner (self w) /\
                   tts_engine (self (deliver P evs w)) = tts_engine (self w) /\
                   console (deliver P evs w) = console w /\
                   (forall p,
                      (forall chosen, In (ExportCaption chosen) evs -> chosen <> p) ->
                      read_file (files (deliver P evs w)) p = read_file (files w) p)).
  { revert w. induction evs as [|ev evs IH]; intros w; cbn [deliver].
    - repeat split.
    - destruct (handle_frame ev w) as (H1 & H2 & H3 & H4).
      destruct (IH (snd (handle P ev w))) as (I1 & I2 & I3 & I4).
      repeat split; try congruence.
      intros p Hp. rewrite I4, H4; [reflexivity| |].
      + intros chosen ->. apply Hp. now left.
      + intros chosen Hin. apply Hp. now right. }
  destruct Hframe as (H1 & H2 & H3 & H4).
  repeat (split; [assumption|]).
  intros Hnone. apply generate_without_model. congruence.
Qed.

(** One handler keeps the widgets in step with the session. *)
Lemma handle_keeps_agreement (ev : event) (w : World P) :
  (read_btn (self w) = export_btn (self w) /\
   (read_btn (self w) = NORMAL <-> truthy_opt (current_caption (self w)) = true) /\
   caption_text (self w) =
     match current_caption (self w) with Some c => c | None => [] end /\
   caption_text_state (self w) = DISABLED) ->
  let w' := snd (handle P ev w) in
  read_btn (self w') = export_btn (self w') /\
  (read_btn (self w') = NORMAL <-> truthy_opt (current_caption (self w')) = true) /\
  caption_text (self w') =
    match current_caption (self w') with Some c => c | None => [] end /\
  caption_text_state (self w') = DISABLED.
Proof.
  cbv zeta. open_world w. intros (Hsame & Hiff & Htext & Hstate).
  destruct ev as [chosen|data| | |chosen| |[|[e|]|caption|[e|]|[e|]]];
    run_ui; case_ui; subst;
    repeat match goal with
           | |- _ /\ _ => split
           | |- _ <-> _ => split; intros
           end;
    try reflexivity; try assumption; try discriminate; try congruence;
    try (now apply Hiff); try (now rewrite app_nil_r);
    try (match goal with
         | H : _ = NORMAL |- _ => apply Hiff in H; congruence
         end).
Qed.

(** X17. From startup on, whatever the event loop delivers, the widgets
    agree with the session between two events: Read Aloud and Export are
    in the same state, they are enabled exactly when the session holds a
    non-empty caption, the caption box shows exactly the session's
    caption (nothing when there is none), and the box is read-only. *)
Theorem widgets_agree_with_session (fs : file_system) (evs : list event) :
  let a := self (deliver P evs (startup P fs)) in
  read_btn a = export_btn a /\
  (read_btn a = NORMAL <-> truthy_opt (current_caption a) = true) /\
  caption_text a = match current_caption a with Some c => c | None => [] end /\
  caption_text_state a = DISABLED.
Proof.
  cbv zeta.
  assert (H0 : read_btn (self (startup P fs)) = export_btn (self (startup P fs)) /\
               (read_btn (self (startup P fs)) = NORMAL <->
                truthy_opt (current_caption (self (startup P fs))) = true) /\
               caption_text (self (startup P fs)) =
                 match current_caption (self (startup P fs)) with
                 | Some c => c
                 | None => []
                 end /\
               caption_text_state (self (startup P fs)) = DISABLED).
  { run_ui. destruct (pyttsx3_init P) as [[]|]; run_ui;
      repeat split; intros E; discriminate E. }
  revert H0. generalize (startup P fs).
  induction evs as [|ev evs IH]; intros w Hw; cbn [deliver]; [exact Hw|].
  apply IH. now apply handle_keeps_agreement.
Qed.

(** X18. The worker [load] and its callback.  When [ImageCaptioner()]
    returns, the worker stores the captioner and posts
    [_on_model_loaded], whose delivery sets the status line and shows the
    box "Ready"; it enables no button, so the Generate button stays as it
    was.  When [ImageCaptioner()] raises, the worker stores nothing and
    posts the lambda of its [except] clause, and the failure is lost:
    delivered by the event loop, after the clause has ended, the lambda
    finds [e] unbound and raises before it calls [_on_model_error], so
    the status line is not updated and no box is shown.  Were [e] still
    bound, the lambda would be [_on_model_error] with the exception's
    message. *)
Theorem model_load_outcomes (w : World P) :
  exists cb w1,
    load P w = (Ok cb, w1) /\
    files w1 = files w /\ console w1 = console w /\ effects w1 = effects w /\
    ((load_model P = Ok tt /\ cb = OnModelLoaded /\
      self w1 = set_captioner (Some Instance) (self w) /\
      run_callback P cb w1 =
      (Ok tt,
       mkWorld
         (set_status_label
            (mark_ok ++ lit " Model loaded successfully! Select an image to begin.")
            (self w1))
         (files w1) (console w1)
         (effects w1 ++ [ShowInfo (lit "Ready")
                           (lit "Image captioning model loaded successfully!")]))) \/
     (exists e, load_model P = Raise e /\ cb = OnModelError None /\
                self w1 = self w /\
                run_callback P cb w1 = (Raise (unbound_variable_error P), w1))) /\
    generate_btn (self (snd (run_callback P cb w1))) = generate_btn (self w) /\
    (forall e,
       run_callback P (OnModelError (Some e)) w1 =
       _on_model_error P (exn_str e) w1).
Proof.
  open_world w. run_ui.
  destruct (load_model P) as [[]|e]; run_ui; do 2 eexists;
    (split; [reflexivity|]); run_ui; do 3 (split; [reflexivity|]);
    (split; [first [left; repeat split; reflexivity
                   | right; eexists; repeat split; reflexivity]|]);
    split; [reflexivity|intros ?; reflexivity | reflexivity|intros ?; reflexivity].
Qed.

(** X19. An image selected before the model has arrived leaves the
    Generate button disabled, and the arrival of the model does not enable
    it: after [_load_image], the worker [load] and its callback, the
    button is still disabled although [generate_caption], reached through
    the keyboard shortcut, is accepted and starts a worker. *)
Theorem generate_button_waits_for_next_load
    (path : str) (w : World P) (img small : image (vision P)) (ph : photo P) :
  captioner (self w) = None ->
  generate_btn (self w) = DISABLED ->
  Image_open (vision P) path = Ok img ->
  thumbnail P img = Ok small ->
  PhotoImage P small = Ok ph ->
  truthy path = true ->
  load_model P = Ok tt ->
  exists w1 w2 w3 w4,
    _load_image P path w = (Ok tt, w1) /\
    load P w1 = (Ok OnModelLoaded, w2) /\
    run_callback P OnModelLoaded w2 = (Ok tt, w3) /\
    captioner (self w3) = Some Instance /\
    current_image_path (self w3) = Some path /\
    generate_btn (self w3) = DISABLED /\
    App.generate_caption P w3 = (Ok tt, w4) /\
    effects w4 = effects w3 ++ [ThreadStart TaskGenerate].
Proof.
  intros Hcap Hbtn Hopen Hthumb Hphoto Hpath Hload. open_world w. subst.
  run_ui. rewrite Hopen. run_ui. rewrite Hthumb. run_ui.
  rewrite Hphoto. run_ui. cbn [truthy_obj]. run_ui.
  eexists. eexists. eexists. eexists.
  split; [reflexivity|]. run_ui. rewrite Hload. run_ui.
  split; [reflexivity|]. run_ui.
  split; [reflexivity|]. run_ui.
  do 3 (split; [reflexivity|]).
  cbn [truthy_opt truthy_obj]. rewrite Hpath. run_ui.
  split; reflexivity.
Qed.

(** X20. When [__init__] returns, the session is empty, the Generate, Read
    Aloud and Export buttons are disabled and one [load] worker has been
    started.  A speech engine that cannot be initialised costs one error
    box and is not fatal: the worker is started all the same.  Generate
    Caption, Read Aloud and Export are each refused with one warning and
    change nothing. *)
Theorem startup_accepts_only_selection (fs : file_system) (chosen : str) :
  let w := startup P fs in
  current_image_path (self w) = None /\
  current_caption (self w) = None /\
  captioner (self w) = None /\
  generate_btn (self w) = DISABLED /\
  read_btn (self w) = DISABLED /\
  export_btn (self w) = DISABLED /\
  files w = fs /\
  (pyttsx3_init P = Ok tt ->
   tts_engine (self w) = Some Instance /\ effects w = [ThreadStart TaskLoad]) /\
  (forall e, pyttsx3_init P = Raise e ->
     tts_engine (self w) = None /\
     effects w =
       [ShowError (lit "TTS Error")
          (lit "Failed to initialize text-to-speech: " ++ exn_str e);
        ThreadStart TaskLoad]) /\
  App.generate_caption P w =
    (Ok tt,
     mkWorld (self w) (files w) (console w)
       (effects w ++ [ShowWarning (lit "No Image")
                        (lit "Please select an image first.")])) /\
  read_aloud P w = (Ok tt, refused w) /\
  export_caption P chosen w = (Ok tt, refused w).
Proof.
  cbv zeta. run_ui.
  destruct (pyttsx3_init P) as [[]|e0]; run_ui;
    do 7 (split; [reflexivity|]); (split; [|split]);
    try (intros [=]); try (intros e [=]); subst;
    repeat split; try reflexivity; try discriminate.
Qed.

End ApplicationMore.

(* ===================================================================== *)
(** * Properties of the event loop *)
(* ===================================================================== *)

Import EventLoop.

Lemma skipn_exact_app {A : Type} (l new : list A) :
  skipn (List.length l) (l ++ new) = new.
Proof. induction l as [|x l IH]; cbn; [reflexivity|exact IH]. Qed.

Lemma skipn_exact {A : Type} (l : list A) : skipn (List.length l) l = [].
Proof. induction l as [|x l IH]; cbn; [reflexivity|exact IH]. Qed.

Lemma in_remove_nth {A : Type} (i : nat) (l : list A) (x : A) :
  In x (remove_nth i l) -> In x l.
Proof.
  unfold remove_nth. intros H. apply in_app_or in H as [H|H].
  - rewrite <- (firstn_skipn i l). apply in_or_app. now left.
  - rewrite <- (firstn_skipn (S i) l). apply in_or_app. now right.
Qed.

Section EventLoopFacts.

Variable P : Platform.

Ltac run_ui :=
  cbv [handle run_callback select_image _on_drop _load_image _load_image_body
       read_aloud speak App.generate_caption _on_caption_generated
       _on_caption_error _on_model_loaded _on_model_error export_caption
       export_body close_file toggle_high_contrast refused as_str load
       startup init _init_tts _load_model_async created read_e getattr
       bind ret raise get_self update emit modify lift try_except store_file
       set_current_image_path set_current_caption set_captioner set_tts_engine
       set_high_contrast_mode set_status_label set_image_label set_caption_text
       set_caption_text_state set_caption_text_colors set_color_scheme
       set_generate_btn set_read_btn set_export_btn set_progress
       self files console effects
       current_image_path current_caption captioner tts_engine
       high_contrast_mode status_label image_label_image image_label_text
       caption_text caption_text_state caption_text_colors color_scheme
       generate_btn read_btn export_btn progress fst snd negb].

Ltac project_all :=
  cbn [self files console effects
       current_image_path current_caption captioner tts_engine
       high_contrast_mode status_label image_label_image image_label_text
       caption_text caption_text_state caption_text_colors color_scheme
       generate_btn read_btn export_btn progress fst snd] in *.

Ltac open_world w :=
  let a := fresh "app" in
  destruct w as [a ? ? ?]; destruct a; project_all.

Ltac case_ui :=
  repeat (match goal with
          | |- context [Image_open (vision P) ?p] =>
              destruct (Image_open (vision P) p) eqn:?
          | |- context [thumbnail P ?i] => destruct (thumbnail P i) eqn:?
          | |- context [PhotoImage P ?i] => destruct (PhotoImage P i) eqn:?
          | |- context [isfile P ?p] => destruct (isfile P p) eqn:?
          | |- context [open_w P ?p] => destruct (open_w P p) as [[]|] eqn:?
          | |- context [text_file_bytes ?a ?b] =>
              destruct (text_file_bytes a b) eqn:?
          | |- context [flush_close P ?p ?b] =>
              destruct (flush_close P p b) as [[]|] eqn:?
          | |- context [say_and_wait P ?x] =>
              destruct (say_and_wait P x) as [[]|] eqn:?
          | |- context [load_model P] => destruct (load_model P) as [[]|] eqn:?
          | |- context [truthy_obj ?x] => destruct (truthy_obj x) eqn:?
          | |- context [truthy_opt ?x] => destruct (truthy_opt x) eqn:?
          | |- context [truthy ?x] => destruct (truthy x) eqn:?
          | |- context [if ?b then _ else _] => destruct b eqn:?
          | |- context [match ?x with Some _ => _ | None => _ end] =>
              destruct x eqn:?
          end; run_ui).

Ltac new_effects :=
  unfold added; cbn [effects]; rewrite <- ?app_assoc;
  rewrite ?skipn_exact_app, ?skipn_exact;
  cbn [threads_of flat_map app In].

(** The workers one handler starts: never a [load] worker, and a caption
    worker only from an accepted Generate Caption. *)
Lemma handle_threads (ev : event) (w : World P) (t : task) :
  In t (threads_of (added w (snd (handle P ev w)))) ->
  t <> TaskLoad /\
  (t = TaskGenerate ->
   ev = GenerateCaption /\
   truthy_opt (current_image_path (self w)) = true /\
   captioner (self w) <> None).
Proof.
  open_world w.
  destruct ev as [chosen|data| | |chosen| |[|[e|]|caption|[e|]|[e|]]];
    run_ui; case_ui; new_effects; intros H; try contradiction;
    repeat (destruct H as [H|H]; try contradiction); subst;
    (split; [discriminate|]); intros E; try discriminate E;
    repeat split; try assumption;
    match goal with
    | H : truthy_obj ?c = true |- ?c <> None =>
        destruct c; [discriminate|discriminate H]
    end.
Qed.

(** Once a file is selected, one stays selected. *)
Lemma handle_keeps_image (ev : event) (w : World P) :
  isfile P [] = false ->
  truthy_opt (current_image_path (self w)) = true ->
  truthy_opt (current_image_path (self (snd (handle P ev w)))) = true.
Proof.
  intros Hfile Himg.
  cut (forall w', snd (handle P ev w) = w' ->
                  truthy_opt (current_image_path (self w')) = true);
    [intros C; now apply C|].
  open_world w.
  destruct ev as [chosen|data| | |chosen| |[|[e|]|caption|[e|]|[e|]]];
    run_ui; case_ui; intros w' <-; run_ui; cbn [truthy_opt];
    try assumption; try congruence;
    match goal with
    | H : isfile P ?p = true |- truthy ?p = true =>
        destruct p; [congruence|reflexivity]
    end.
Qed.

(** A caption in the session was there before, or has just arrived. *)
Lemma handle_caption_origin (ev : event) (w : World P) :
  truthy_opt (current_caption (self (snd (handle P ev w)))) = true ->
  truthy_opt (current_caption (self w)) = true \/
  exists caption, ev = Posted (OnCaptionGenerated caption).
Proof.
  cut (forall w', snd (handle P ev w) = w' ->
                  truthy_opt (current_caption (self w')) = true ->
                  truthy_opt (current_caption (self w)) = true \/
                  exists caption, ev = Posted (OnCaptionGenerated caption));
    [intros C; now apply C|].
  destruct ev as [chosen|data| | |chosen| |[|[e|]|caption|[e|]|[e|]]];
    try (right; eexists; reflexivity);
    open_world w; run_ui; case_ui; intros w' <-; run_ui; cbn [truthy_opt];
    intros H; try discriminate H; try congruence;
    left; first [assumption | reflexivity].
Qed.

(** What a worker leaves alone, and what it can post. *)
Lemma work_frame (t : task) (w : World P) :
  exists r w',
    work P t w = (Ok r, w') /\
    current_image_path (self w') = current_image_path (self w) /\
    current_caption (self w') = current_caption (self w) /\
    (t <> TaskLoad -> captioner (self w') = captioner (self w)) /\
    (t = TaskLoad ->
     (load_model P = Ok tt /\ captioner (self w') = Some Instance) \/
     ((exists e, load_model P = Raise e) /\
      captioner (self w') = captioner (self w))) /\
    (forall caption, r = Some (OnCaptionGenerated caption) -> t = TaskGenerate).
Proof.
  open_world w. destruct t; unfold work.
  - run_ui. destruct (load_model P) as [[]|e]; run_ui;
      do 2 eexists; (split; [reflexivity|]); run_ui;
      repeat split; try congruence; intros _; eauto.
  - cbv [generate try_except bind get_self on_console ret raise getattr
         self files console effects captioner current_image_path].
    match goal with
    | |- context [match ?x with Some _ => _ | None => _ end] =>
        destruct x as [[]|]
    end; cbv beta iota;
      try match goal with
          | |- context [match ?x with Some _ => _ | None => _ end] => destruct x
          end;
      try match goal with
          | |- context [ImageCaptioner.generate_caption ?L ?p ?a ?b ?c] =>
              destruct (ImageCaptioner.generate_caption L p a b c) as [[r|e] t']
          | |- context [generate_caption_handler ?L ?e ?c] =>
              destruct (generate_caption_handler L e c) as [[r|e'] t']
          end;
      do 2 eexists; (split; [reflexivity|]); project_all;
      repeat split; try congruence; intros; discriminate.
  - run_ui.
    match goal with
    | |- context [match ?x with Some _ => _ | None => _ end] =>
        destruct x as [[]|]
    end; run_ui;
      try match goal with
          | |- context [say_and_wait P ?x] => destruct (say_and_wait P x) as [[]|e]
          end; run_ui; do 2 eexists; (split; [reflexivity|]); run_ui;
      repeat split; try congruence; intros; discriminate.
Qed.

Lemma boot_runs_load (fs : file_system) :
  running (boot P fs) = [TaskLoad] /\
  captioner (self (world (boot P fs))) = None /\
  current_caption (self (world (boot P fs))) = None /\
  posted (boot P fs) = [].
Proof.
  unfold boot. cbv zeta. cbn [running world posted]. run_ui.
  destruct (pyttsx3_init P) as [[]|]; run_ui; repeat split.
Qed.

(** One move keeps every caption backed by an image. *)
Lemma step_keeps_image_backed (mv : move) (m m' : Machine P) :
  isfile P [] = false ->
  step P mv m = Some m' ->
  image_backed m -> image_backed m'.
Proof.
  intros Hfile Hstep [Himg Hcap].
  destruct m as [w run_ post]. unfold image_backed, caption_in_sight in *.
  cbn [world running posted] in *.
  destruct mv as [ev|i|i]; cbn [step world running posted] in Hstep.
  - destruct (is_command ev) eqn:Hev; [|discriminate Hstep].
    injection Hstep as <-. cbn [world running posted].
    destruct (handle_frame P ev w) as (Hc & _).
    split.
    + intros [Hin|[Hin|Hin]].
      * apply handle_keeps_image; [exact Hfile|].
        apply in_app_or in Hin as [Hin|Hin]; [now apply Himg; left|].
        now apply handle_threads in Hin as (_ & Hgen); apply Hgen.
      * apply handle_keeps_image; [exact Hfile|]. apply Himg. now right; left.
      * apply handle_keeps_image; [exact Hfile|].
        apply handle_caption_origin in Hin as [Hin|(c & ->)];
          [|discriminate Hev].
        apply Himg. now right; right.
    + intros Hin. rewrite Hc.
      apply in_app_or in Hin as [Hin|Hin]; [now apply Hcap|].
      now apply handle_threads in Hin as (_ & Hgen); apply Hgen.
  - destruct (nth_error run_ i) as [t|] eqn:Ht; [|discriminate Hstep].
    apply nth_error_In in Ht.
    destruct (work_frame t w) as (r & w' & Hwork & Hi & Hc & Hkeep & Hload & Hpost).
    rewrite Hwork in Hstep.
    assert (Hcapt : captioner (self w) <> None -> captioner (self w') <> None).
    { destruct t; try (rewrite Hkeep by discriminate; tauto).
      destruct (Hload eq_refl) as [[_ ->]|[_ ->]]; [discriminate|tauto]. }
    destruct r as [cb|]; injection Hstep as <-; cbn [world running posted];
      rewrite Hi, Hc; (split; [|intros Hin; apply in_remove_nth in Hin; auto]);
      intros [Hin|[(c & Hin)|Hin]];
      try (apply in_remove_nth in Hin; apply Himg; now left);
      try (apply Himg; now right; right);
      try (apply Himg; right; left; now exists c).
    apply in_app_or in Hin as [Hin|[->|[]]].
    + apply Himg. right; left. now exists c.
    + apply Himg. left. now rewrite <- (Hpost c eq_refl).
  - destruct (nth_error post i) as [cb|] eqn:Hcb; [|discriminate Hstep].
    apply nth_error_In in Hcb.
    injection Hstep as <-. cbn [world running posted].
    change (run_callback P cb w) with (handle P (Posted cb) w).
    destruct (handle_frame P (Posted cb) w) as (Hc & _).
    assert (Hnew : forall t, In t (threads_of (added w (snd (handle P (Posted cb) w)))) ->
                             t <> TaskGenerate).
    { intros t Hin ->. apply handle_threads in Hin as (_ & Hgen).
      destruct (Hgen eq_refl) as (Habs & _). discriminate Habs. }
    split.
    + intros [Hin|[(c & Hin)|Hin]].
      * apply handle_keeps_image; [exact Hfile|].
        apply in_app_or in Hin as [Hin|Hin]; [now apply Himg; left|].
        now apply Hnew in Hin.
      * apply handle_keeps_image; [exact Hfile|]. apply in_remove_nth in Hin.
        apply Himg. right; left. now exists c.
      * apply handle_keeps_image; [exact Hfile|].
        apply handle_caption_origin in Hin as [Hin|(c & [= ->])].
        -- apply Himg. now right; right.
        -- apply Himg. right; left. now exists c.
    + intros Hin. rewrite Hc.
      apply in_app_or in Hin as [Hin|Hin]; [now apply Hcap|].
      now apply Hnew in Hin.
Qed.

(** One move keeps the account of the [load] worker. *)
Lemma step_keeps_load_account (mv : move) (m m' : Machine P) :
  step P mv m = Some m' ->
  load_pending m \/ load_done m -> load_pending m' \/ load_done m'.
Proof.
  intros Hstep Hm.
  destruct m as [w run_ post]. unfold load_pending, load_done in *.
  cbn [world running posted] in *.
  assert (Hhandle : forall ev,
             captioner (self (snd (handle P ev w))) = captioner (self w) /\
             ~ In TaskLoad (threads_of (added w (snd (handle P ev w))))).
  { intros ev. destruct (handle_frame P ev w) as (Hc & _). split; [exact Hc|].
    intros Hin. now apply handle_threads in Hin as (Hno & _). }
  assert (Hafter : forall ev,
             (exists rest,
                run_ ++ threads_of (added w (snd (handle P ev w))) = TaskLoad :: rest /\
                ~ In TaskLoad rest /\
                captioner (self (snd (handle P ev w))) = None) \/
             (~ In TaskLoad (run_ ++ threads_of (added w (snd (handle P ev w)))) /\
              ((load_model P = Ok tt /\
                captioner (self (snd (handle P ev w))) = Some Instance) \/
               ((exists e, load_model P = Raise e) /\
                captioner (self (snd (handle P ev w))) = None)))).
  { intros ev. destruct (Hhandle ev) as [Hc Hno]. rewrite Hc.
    destruct Hm as [(rest & -> & Hrest & Hnone)|(Hout & Hstate)].
    - left. eexists. split; [reflexivity|]. split; [|exact Hnone].
      intros Hin. apply in_app_or in Hin. tauto.
    - right. split; [|exact Hstate].
      intros Hin. apply in_app_or in Hin. tauto. }
  destruct mv as [ev|i|i]; cbn [step world running posted] in Hstep.
  - destruct (is_command ev); [|discriminate Hstep].
    injection Hstep as <-. cbn [world running posted]. apply Hafter.
  - destruct (nth_error run_ i) as [t|] eqn:Ht; [|discriminate Hstep].
    destruct (work_frame t w) as (r & w' & Hwork & _ & _ & Hkeep & Hload & _).
    rewrite Hwork in Hstep.
    assert (Hm' : world m' = w' /\ running m' = remove_nth i run_).
    { destruct r; injection Hstep as <-; split; reflexivity. }
    destruct Hm' as [-> ->]. clear Hstep.
    destruct Hm as [(rest & -> & Hrest & Hnone)|(Hout & Hstate)].
    + destruct i as [|j]; cbn in Ht.
      * injection Ht as <-. right. split; [exact Hrest|].
        destruct (Hload eq_refl) as [[Hok ->]|[Hfail ->]]; [left|right]; tauto.
      * left. exists (remove_nth j rest). split; [reflexivity|].
        split; [intros Hin; apply in_remove_nth in Hin; tauto|].
        rewrite Hkeep; [exact Hnone|].
        intros ->. apply nth_error_In in Ht. tauto.
    + right. split; [intros Hin; apply in_remove_nth in Hin; tauto|].
      rewrite Hkeep; [exact Hstate|].
      intros ->. apply nth_error_In in Ht. tauto.
  - destruct (nth_error post i) as [cb|]; [|discriminate Hstep].
    injection Hstep as <-. cbn [world running posted].
    change (run_callback P cb w) with (handle P (Posted cb) w). apply Hafter.
Qed.

Lemma reachable_image_backed (fs : file_system) (m : Machine P) :
  isfile P [] = false -> reachable P fs m -> image_backed m.
Proof.
  intros Hfile [mvs Hrun].
  assert (H0 : image_backed (boot P fs)).
  { destruct (boot_runs_load fs) as (Hrun0 & _ & Hcap & Hpost).
    unfold image_backed, caption_in_sight. rewrite Hrun0, Hcap, Hpost.
    split.
    - intros [[[=]|[]]|[(c & [])|[=]]].
    - intros [[=]|[]]. }
  revert Hrun H0. generalize (boot P fs).
  induction mvs as [|mv mvs IH]; intros m0 Hrun H0; cbn [run] in Hrun.
  - now injection Hrun as <-.
  - destruct (step P mv m0) as [m1|] eqn:Hstep; [|discriminate Hrun].
    apply (IH m1 Hrun). now apply (step_keeps_image_backed mv m0).
Qed.

Lemma reachable_load_account (fs : file_system) (m : Machine P) :
  reachable P fs m -> load_pending m \/ load_done m.
Proof.
  intros [mvs Hrun].
  assert (H0 : load_pending (boot P fs) \/ load_done (boot P fs)).
  { destruct (boot_runs_load fs) as (Hrun0 & Hcap & _).
    left. exists []. rewrite Hrun0. repeat split; [tauto|exact Hcap]. }
  revert Hrun H0. generalize (boot P fs).
  induction mvs as [|mv mvs IH]; intros m0 Hrun H0; cbn [run] in Hrun.
  - now injection Hrun as <-.
  - destruct (step P mv m0) as [m1|] eqn:Hstep; [|discriminate Hrun].
    apply (IH m1 Hrun). now apply (step_keeps_load_account mv m0).
Qed.

(** X21. In every state the application can reach, a caption has an
    image behind it: whenever the session holds a caption, a caption
    callback is waiting or a caption worker is running, a non-empty image
    path is selected; and a caption worker only ever runs with the
    captioner loaded.  ([os.path.isfile] is false of the empty path.) *)
Theorem caption_always_has_an_image (fs : file_system) (m : Machine P) :
  isfile P [] = false ->
  reachable P fs m ->
  (caption_in_sight m ->
   exists path,
     current_image_path (self (world m)) = Some path /\ path <> []) /\
  (In TaskGenerate (running m) -> captioner (self (world m)) = Some Instance).
Proof.
  intros Hfile Hreach.
  destruct (reachable_image_backed fs m Hfile Hreach) as [Himg Hcap].
  split.
  - intros Hsight. specialize (Himg Hsight).
    destruct (current_image_path (self (world m))) as [[|x path]|];
      try discriminate Himg.
    eexists. split; [reflexivity|discriminate].
  - intros Hin. specialize (Hcap Hin).
    destruct (captioner (self (world m))) as [[]|]; congruence.
Qed.

(** X22. In every state the application can reach, an export offers a
    file name made from the image's name: the save dialog is opened with
    the stem of the selected path followed by "_caption.txt", and the
    fallback name "caption.txt" is never used. *)
Theorem export_names_file_after_image
    (fs : file_system) (m : Machine P) (chosen : str) :
  isfile P [] = false ->
  reachable P fs m ->
  truthy_opt (current_caption (self (world m))) = true ->
  exists path rest,
    current_image_path (self (world m)) = Some path /\
    effects (snd (export_caption P chosen (world m))) =
    effects (world m) ++
    AskSaveAsFilename (Path_stem P path ++ lit "_caption.txt") :: rest.
Proof.
  intros Hfile Hreach Hcap.
  destruct (reachable_image_backed fs m Hfile Hreach) as [Himg _].
  assert (Hpath : truthy_opt (current_image_path (self (world m))) = true).
  { apply Himg. right; right. exact Hcap. }
  clear Himg Hreach. destruct m as [w run_ post]. cbn [world] in *.
  open_world w.
  match goal with
  | H : truthy_opt ?p = true |- context [?p = Some _] =>
      destruct p as [path|]; [|discriminate H]
  end.
  cbn [truthy_opt] in Hpath. exists path.
  run_ui. rewrite Hcap, Hpath. run_ui. case_ui;
    eexists; (split; [reflexivity|]); rewrite <- ?app_assoc; reflexivity.
Qed.

(** X23. In every state the application can reach, a caption worker
    finds its captioner and its image: when it runs, the session names an
    image and the worker calls the captioner for it, with the default
    [max_length] 50 and [num_beams] 4.  It posts [_on_caption_generated]
    with what the captioner returns; this is what happens whenever the
    failures of the run can be reported on the console.  It takes its own
    [except] branch only when the captioner raises, and the lambda it
    then posts finds [e] unbound when the event loop delivers it: nothing
    is shown, and the Generate button is not enabled again. *)
Theorem caption_worker_finds_its_image (fs : file_system) (m : Machine P) :
  isfile P [] = false ->
  reachable P fs m ->
  In TaskGenerate (running m) ->
  exists path,
    current_image_path (self (world m)) = Some path /\
    fst (work P TaskGenerate (world m)) =
    Ok (Some (match outcome_of (vision P) path 50 4 with
              | Ok caption => OnCaptionGenerated caption
              | Raise _ => OnCaptionError None
              end)) /\
    (reportable (vision P) path 50 4 ->
     fst (work P TaskGenerate (world m)) =
     Ok (Some (OnCaptionGenerated (caption_of (vision P) path 50 4)))) /\
    (forall w, run_callback P (OnCaptionError None) w =
               (Raise (unbound_variable_error P), w)).
Proof.
  intros Hfile Hreach Hin.
  destruct (reachable_image_backed fs m Hfile Hreach) as [Himg Hcap].
  assert (Hpath : truthy_opt (current_image_path (self (world m))) = true).
  { apply Himg. now left. }
  specialize (Hcap Hin).
  destruct (current_image_path (self (world m))) as [path|] eqn:Hsome;
    [|discriminate Hpath].
  exists path. split; [reflexivity|].
  pose proof (generate_posts P path (world m) Hcap Hsome) as Hgen.
  assert (Hwork : fst (work P TaskGenerate (world m)) =
                  Ok (Some (match outcome_of (vision P) path 50 4 with
                            | Ok caption => OnCaptionGenerated caption
                            | Raise _ => OnCaptionError None
                            end))).
  { unfold work, bind, ret.
    destruct (generate P (world m)) as [r w']. cbn [fst] in *. now subst r. }
  split; [exact Hwork|]. split.
  - intros Hrep. rewrite Hwork.
    pose proof (generate_caption_returns (vision P) path 50 4 [] Hrep) as R.
    fold (outcome_of (vision P) path 50 4) in R. now rewrite R.
  - intros w. reflexivity.
Qed.

(** X24. The model is loaded once.  In every state the application can
    reach, either the [load] worker started by [__init__] is the first
    of the running workers, there is no other and the captioner is not
    there yet, or no [load] worker is running and the captioner is there
    exactly when [ImageCaptioner()] returned.  So when the load fails,
    the captioner stays missing for good and every Generate Caption is
    refused with a warning. *)
Theorem model_is_loaded_once (fs : file_system) (m : Machine P) :
  reachable P fs m ->
  (load_pending m \/ load_done m) /\
  (forall e, load_model P = Raise e ->
     captioner (self (world m)) = None /\
     exists title message,
       App.generate_caption P (world m) =
       (Ok tt,
        mkWorld (self (world m)) (files (world m)) (console (world m))
          (effects (world m) ++ [ShowWarning title message]))).
Proof.
  intros Hreach.
  pose proof (reachable_load_account fs m Hreach) as Hload.
  split; [exact Hload|].
  intros e He.
  assert (Hnone : captioner (self (world m)) = None).
  { destruct Hload as [(rest & _ & _ & Hnone)|(_ & [[Hok _]|[_ Hnone]])];
      congruence. }
  split; [exact Hnone|]. now apply generate_without_model.
Qed.

End EventLoopFacts.

(* ===================================================================== *)
(** * Further runs on the concrete machine *)
(* ===================================================================== *)

Lemma runs_reachable (P : Platform) (mvs : list move) :
  runs P mvs = true -> reachable P [] (after_moves P mvs).
Proof.
  unfold runs, reachable, after_moves. intros Hruns. exists mvs.
  destruct (run P mvs (boot P [])); [reflexivity|discriminate Hruns].
Qed.

(** The caption of [photo.jpg]: the decoded text without its final line
    feed. *)
Lemma caption_is_trimmed_text_witness :
  caption_of library photo_jpg 50 4 = Some (lit "a red square") /\
  exists text pre post,
    decodes library photo_jpg 50 4 text /\
    text = pre ++ lit "a red square" ++ post /\
    forallb isspace pre = true /\
    forallb isspace post = true.
Proof.
  split; [reflexivity|].
  destruct (caption_is_trimmed_text library photo_jpg 50 4 (lit "a red square"))
    as (text & pre & post & H1 & H2 & H3 & H4 & _); [reflexivity|].
  exists text, pre, post. repeat split; assumption.
Defined.

(** Generate Caption, twice, once the model is loaded and [photo.jpg] is
    selected. *)
Lemma generate_caption_starts_worker_witness :
  let w := deliver posix [SelectImage photo_jpg] (ready posix) in
  truthy_opt (current_image_path (self w)) = true /\
  captioner (self w) <> None /\
  exists w' w'',
    App.generate_caption posix w = (Ok tt, w') /\
    App.generate_caption posix w' = (Ok tt, w'') /\
    effects w'' = effects w ++ [ThreadStart TaskGenerate; ThreadStart TaskGenerate].
Proof.
  cbv zeta.
  assert (Hc : captioner (self (deliver posix [SelectImage photo_jpg] (ready posix)))
               <> None) by (intros H; vm_compute in H; discriminate H).
  split; [reflexivity|]. split; [exact Hc|].
  destruct (generate_caption_starts_worker posix
              (deliver posix [SelectImage photo_jpg] (ready posix)) eq_refl Hc)
    as (w' & w'' & H1 & _ & _ & _ & _ & H6 & _ & H8).
  exists w', w''. repeat split; assumption.
Defined.

(** Read Aloud, twice, with the caption of [photo.jpg] in the session. *)
Lemma read_aloud_starts_worker_witness :
  let w := captioned posix photo_jpg in
  truthy_opt (current_caption (self w)) = true /\
  tts_engine (self w) <> None /\
  exists w' w'',
    read_aloud posix w = (Ok tt, w') /\
    read_aloud posix w' = (Ok tt, w'') /\
    effects w'' = effects w ++ [ThreadStart TaskSpeak; ThreadStart TaskSpeak].
Proof.
  cbv zeta.
  assert (Ht : tts_engine (self (captioned posix photo_jpg)) <> None)
    by (intros H; vm_compute in H; discriminate H).
  split; [reflexivity|]. split; [exact Ht|].
  destruct (read_aloud_starts_worker posix (captioned posix photo_jpg) eq_refl Ht)
    as (w' & w'' & H1 & _ & _ & _ & _ & H6 & _ & H8).
  exists w', w''. repeat split; assumption.
Defined.

(** An export to a disk that refuses the write: nothing is written. *)
Lemma failed_export_is_reported_witness :
  let w := captioned readonly photo_jpg in
  current_caption (self w) = Some (lit "a red square") /\
  open_w readonly (lit "out.txt") = Raise (PermissionError (lit "out.txt")) /\
  exists name,
    export_caption readonly (lit "out.txt") w =
    (Ok tt,
     mkWorld (self w) (files w) (console w)
       (effects w ++ [AskSaveAsFilename name;
                      ShowError (lit "Export Error")
                        (lit "Failed to export caption:" ++ nl ++
                         exn_str (PermissionError (lit "out.txt")))])).
Proof.
  cbv zeta.
  assert (Hc : current_caption (self (captioned readonly photo_jpg))
               = Some (lit "a red square")) by (reflexivity).
  split; [exact Hc|]. split; [reflexivity|].
  destruct (failed_export_is_reported readonly (lit "out.txt") (lit "a red square")
              (captioned readonly photo_jpg) Hc eq_refl eq_refl)
    as (Hopen & _ & _).
  apply Hopen. reflexivity.
Defined.

(** [photo.jpg] selected at startup, before the model has arrived. *)
Lemma generate_button_waits_for_next_load_witness :
  let w := startup posix [] in
  captioner (self w) = None /\
  generate_btn (self w) = DISABLED /\
  exists w1 w2 w3 w4,
    _load_image posix photo_jpg w = (Ok tt, w1) /\
    load posix w1 = (Ok OnModelLoaded, w2) /\
    run_callback posix OnModelLoaded w2 = (Ok tt, w3) /\
    captioner (self w3) = Some Instance /\
    current_image_path (self w3) = Some photo_jpg /\
    generate_btn (self w3) = DISABLED /\
    App.generate_caption posix w3 = (Ok tt, w4) /\
    effects w4 = effects w3 ++ [ThreadStart TaskGenerate].
Proof.
  cbv zeta. split; [reflexivity|]. split; [reflexivity|].
  apply (generate_button_waits_for_next_load posix photo_jpg (startup posix [])
           (mkPicture photo_jpg (lit "RGB")) (mkPicture photo_jpg (lit "RGB"))
           (mkPicture photo_jpg (lit "RGB")));
    reflexivity.
Defined.

(** The machine once a caption has been generated. *)
Lemma caption_always_has_an_image_witness :
  let m := after_moves posix get_caption in
  isfile posix [] = false /\
  reachable posix [] m /\
  current_caption (self (world m)) = Some (lit "a red square") /\
  exists path, current_image_path (self (world m)) = Some path /\ path <> [].
Proof.
  cbv zeta.
  assert (Hr : reachable posix [] (after_moves posix get_caption))
    by (apply runs_reachable; vm_compute; reflexivity).
  split; [reflexivity|]. split; [exact Hr|].
  split; [vm_compute; reflexivity|].
  destruct (caption_always_has_an_image posix [] (after_moves posix get_caption)
              eq_refl Hr) as [Himg _].
  apply Himg. right; right. vm_compute. reflexivity.
Defined.

(** An export on that machine. *)
Lemma export_names_file_after_image_witness :
  let m := after_moves posix get_caption in
  reachable posix [] m /\
  exists path rest,
    current_image_path (self (world m)) = Some path /\
    effects (snd (export_caption posix (lit "out.txt") (world m))) =
    effects (world m) ++
    AskSaveAsFilename (Path_stem posix path ++ lit "_caption.txt") :: rest.
Proof.
  cbv zeta.
  assert (Hr : reachable posix [] (after_moves posix get_caption))
    by (apply runs_reachable; vm_compute; reflexivity).
  split; [exact Hr|].
  apply (export_names_file_after_image posix [] (after_moves posix get_caption)
           (lit "out.txt") eq_refl Hr).
  vm_compute. reflexivity.
Defined.

(** The machine while the caption worker is waiting to run. *)
Lemma caption_worker_finds_its_image_witness :
  let m := after_moves posix ask_for_caption in
  reachable posix [] m /\
  running m = [TaskGenerate] /\
  exists path,
    current_image_path (self (world m)) = Some path /\
    fst (work posix TaskGenerate (world m)) =
    Ok (Some (OnCaptionGenerated (Some (lit "a red square")))).
Proof.
  cbv zeta.
  assert (Hr : reachable posix [] (after_moves posix ask_for_caption))
    by (apply runs_reachable; vm_compute; reflexivity).
  split; [exact Hr|]. split; [vm_compute; reflexivity|].
  destruct (caption_worker_finds_its_image posix []
              (after_moves posix ask_for_caption) eq_refl Hr)
    as (path & Hpath & Hwork & _).
  - left. reflexivity.
  - exists path. split; [exact Hpath|].
    rewrite Hwork. assert (Hp : path = photo_jpg).
    { assert (E : current_image_path
                    (self (world (after_moves posix ask_for_caption)))
                  = Some photo_jpg) by (vm_compute; reflexivity).
      rewrite E in Hpath. now injection Hpath as <-. }
    subst path. vm_compute. reflexivity.
Defined.

(** The machine without the model files, after the load has failed and an
    image has been selected. *)
Lemma model_is_loaded_once_witness :
  let m := after_moves offline load_then_select in
  reachable offline [] m /\
  load_done m /\
  captioner (self (world m)) = None /\
  exists title message,
    App.generate_caption offline (world m) =
    (Ok tt,
     mkWorld (self (world m)) (files (world m)) (console (world m))
       (effects (world m) ++ [ShowWarning title message])).
Proof.
  cbv zeta.
  assert (Hr : reachable offline [] (after_moves offline load_then_select))
    by (apply runs_reachable; vm_compute; reflexivity).
  split; [exact Hr|].
  destruct (model_is_loaded_once offline [] (after_moves offline load_then_select) Hr)
    as [Hacc Hfail].
  destruct (Hfail (mkExn (lit "RuntimeError") (lit "Failed to load model: offline"))
              eq_refl) as [Hnone Hrefused].
  split; [|split; [exact Hnone|exact Hrefused]].
  destruct Hacc as [(rest & Habs & _)|Hdone]; [|exact Hdone].
  vm_compute in Habs. discriminate Habs.
Defined.
